(** * Verification of the K30 CO2 reader and the Pine64 battery reader

    Shallow embedding of [plugins/inputs/k30_reader/k30_reader.go] and
    [plugins/inputs/pine_64/pine_64.go].

    Conventions.
    - A Go [string] is a Rocq [string]; a Go [[]byte] is a [list byte];
      [string(b)] and [[]byte(s)] are the two conversions of the Standard
      Library.  A nil slice and an empty slice are both [[]].
    - A [uint32] is an [N] below [2^32]; a [float32] is its IEEE-754 bit
      pattern; a [float64] is a primitive binary64 float.
    - A Go function that can panic returns a [result]; the accumulator, the
      collector (mutated through its pointer receiver) and the wait group
      are passed explicitly and returned, also when the function panics.
    - [map[string]interface{}] is a [gmap string value]. *)

From Stdlib Require Import NArith ZArith List Ascii String Floats QArith Lia.
From Stdlib.Strings Require Byte.
From stdpp Require Import base option list gmap strings.

Import ListNotations.
Local Open Scope N_scope.

(* The constant 0.01 of the battery reader is no binary64 number; Go and
   Rocq both read it as the nearest one, 0x1.47ae147ae147bp-7. *)
Set Warnings "-inexact-float".

(** ** Common types *)

Abbreviation byte := Byte.byte.
Abbreviation bytes := (list Byte.byte).

(** [[]byte("...")] for literals. *)
Definition B (s : string) : bytes := list_byte_of_string s.

(** The line feed, as a one-character string. *)
Definition LF : string := String (ascii_of_N 10) EmptyString.

Inductive error : Type :=
| ErrLength                         (* hex.ErrLength *)
| InvalidByteError (b : byte)       (* hex.InvalidByteError *)
| ExternalError (msg : string).     (* os/exec, os, strconv errors *)

Inductive panic : Type :=
| IndexOutOfRange (index len : nat) (* runtime error: index out of range *)
| PanicError (e : error)            (* panic(err) *)
| NegativeWaitGroup.                (* sync: negative WaitGroup counter *)

Inductive result (A : Type) : Type :=
| Ok (a : A)
| Panic (p : panic).
Arguments Ok {A} a.
Arguments Panic {A} p.

Definition rbind {A C : Type} (r : result A) (k : A -> result C) : result C :=
  match r with
  | Ok a => k a
  | Panic p => Panic p
  end.

Notation "x <~ r ;; k" := (rbind r (fun x => k))
  (at level 100, r at next level, right associativity).

(** [l[i]] with Go's bounds check. *)
Definition index {A : Type} (l : list A) (i : nat) : result A :=
  match nth_error l i with
  | Some a => Ok a
  | None => Panic (IndexOutOfRange i (length l))
  end.

(** [l[i] = v] with Go's bounds check. *)
Definition store {A : Type} (l : list A) (i : nat) (v : A) : result (list A) :=
  if (i <? length l)%nat then Ok (<[i:=v]> l)
  else Panic (IndexOutOfRange i (length l)).

(** [make([]byte, n)]. *)
Definition make (n : nat) : bytes := repeat Byte.x00 n.

(** [byte(v)]: conversion of an unsigned integer to a byte keeps the low
    eight bits. *)
Definition byte_of_N (v : N) : byte :=
  match Byte.of_N (v mod 256) with
  | Some b => b
  | None => Byte.x00
  end.

(** ** Go standard library, as far as the two files call it *)

Module utf8.

Definition RuneError : N := 0xFFFD.
Definition RuneSelf : N := 0x80.

(** The table [first]: information about the first byte of an encoding. *)
Definition first (p0 : N) : N :=
  if p0 <? 0x80 then 0xF0
  else if p0 <? 0xC2 then 0xF1
  else if p0 <? 0xE0 then 0x02
  else if p0 =? 0xE0 then 0x13
  else if p0 <? 0xED then 0x03
  else if p0 =? 0xED then 0x23
  else if p0 <? 0xF0 then 0x03
  else if p0 =? 0xF0 then 0x34
  else if p0 <? 0xF4 then 0x04
  else if p0 =? 0xF4 then 0x44
  else 0xF1.

(** The table [acceptRanges]: allowed range of the second byte. *)
Definition acceptRanges (i : N) : N * N :=
  if i =? 1 then (0xA0, 0xBF)
  else if i =? 2 then (0x80, 0x9F)
  else if i =? 3 then (0x90, 0xBF)
  else if i =? 4 then (0x80, 0x8F)
  else (0x80, 0xBF).

Definition cont (b : N) : bool := (0x80 <=? b) && (b <=? 0xBF).

(** [utf8.DecodeRune(p)]: the rune and its width in bytes. *)
Definition DecodeRune (p : bytes) : N * nat :=
  match p with
  | [] => (RuneError, 0%nat)
  | c0 :: p1 =>
      let p0 := Byte.to_N c0 in
      let x := first p0 in
      if 0xF0 <=? x then
        (if N.testbit x 0 then RuneError else p0, 1%nat)
      else
        let sz := N.to_nat (N.land x 7) in
        let '(lo, hi) := acceptRanges (N.shiftr x 4) in
        if (length p <? sz)%nat then (RuneError, 1%nat)
        else
          match p1 with
          | [] => (RuneError, 1%nat)
          | c1 :: p2 =>
              let b1 := Byte.to_N c1 in
              if (b1 <? lo) || (hi <? b1) then (RuneError, 1%nat)
              else if (sz <=? 2)%nat then
                (N.lor (N.shiftl (N.land p0 0x1F) 6) (N.land b1 0x3F), 2%nat)
              else
                match p2 with
                | [] => (RuneError, 1%nat)
                | c2 :: p3 =>
                    let b2 := Byte.to_N c2 in
                    if negb (cont b2) then (RuneError, 1%nat)
                    else if (sz <=? 3)%nat then
                      (N.lor (N.shiftl (N.land p0 0x0F) 12)
                         (N.lor (N.shiftl (N.land b1 0x3F) 6)
                                (N.land b2 0x3F)), 3%nat)
                    else
                      match p3 with
                      | [] => (RuneError, 1%nat)
                      | c3 :: _ =>
                          let b3 := Byte.to_N c3 in
                          if negb (cont b3) then (RuneError, 1%nat)
                          else
                            (N.lor (N.shiftl (N.land p0 0x07) 18)
                               (N.lor (N.shiftl (N.land b1 0x3F) 12)
                                  (N.lor (N.shiftl (N.land b2 0x3F) 6)
                                         (N.land b3 0x3F))), 4%nat)
                      end
                end
          end
  end.

(** [utf8.EncodeRune]: the UTF-8 encoding of a rune. *)
Definition EncodeRune (r : N) : bytes :=
if r <=? 0x7F then [byte_of_N r]
else if r <=? 0x7FF then
  [byte_of_N (N.lor 0xC0 (N.shiftr r 6));
   byte_of_N (N.lor 0x80 (N.land r 0x3F))]
else
  let r := if (0x10FFFF <? r) || ((0xD800 <=? r) && (r <=? 0xDFFF))
           then RuneError else r in
  if r <=? 0xFFFF then
    [byte_of_N (N.lor 0xE0 (N.shiftr r 12));
     byte_of_N (N.lor 0x80 (N.land (N.shiftr r 6) 0x3F));
     byte_of_N (N.lor 0x80 (N.land r 0x3F))]
  else
    [byte_of_N (N.lor 0xF0 (N.shiftr r 18));
     byte_of_N (N.lor 0x80 (N.land (N.shiftr r 12) 0x3F));
     byte_of_N (N.lor 0x80 (N.land (N.shiftr r 6) 0x3F));
     byte_of_N (N.lor 0x80 (N.land r 0x3F))].

End utf8.

Module unicode.

(** [unicode.IsSpace]: the Latin-1 switch, then the White_Space table. *)
Definition IsSpace (r : N) : bool :=
  if r <=? 0xFF then
    ((0x09 <=? r) && (r <=? 0x0D)) || (r =? 0x20) || (r =? 0x85) || (r =? 0xA0)
  else
    (r =? 0x1680) || ((0x2000 <=? r) && (r <=? 0x200A))
    || (r =? 0x2028) || (r =? 0x2029) || (r =? 0x202F)
    || (r =? 0x205F) || (r =? 0x3000).

End unicode.

Module gobytes.

(** The table [asciiSpace]: tab, line feed, vertical tab, form feed,
    carriage return, space. *)
Definition asciiSpace (c : byte) : bool :=
  let n := Byte.to_N c in
  ((0x09 <=? n) && (n <=? 0x0D)) || (n =? 0x20).

Definition flush (cur : bytes) : list bytes :=
  match cur with
  | [] => []
  | _ => [cur]
  end.

(** The ASCII path of [bytes.Fields]: [cur] holds the bytes of the field
    that started at [fieldStart] and has not ended yet. *)
Fixpoint fieldsASCII (s cur : bytes) : list bytes :=
  match s with
  | [] => flush cur
  | c :: s' =>
      if asciiSpace c then flush cur ++ fieldsASCII s' []
      else fieldsASCII s' (cur ++ [c])
  end.

(** [bytes.FieldsFunc(s, f)]: the loop advances by the width of the rune
    it decodes; [fuel] bounds the number of iterations by [len(s)]. *)
Fixpoint fieldsFunc_loop (fuel : nat) (f : N -> bool) (s cur : bytes)
  : list bytes :=
  match fuel with
  | O => flush cur
  | S fuel' =>
      match s with
      | [] => flush cur
      | c :: _ =>
          let '(r, size) :=
            if utf8.RuneSelf <=? Byte.to_N c then utf8.DecodeRune s
            else (Byte.to_N c, 1%nat) in
          if f r then flush cur ++ fieldsFunc_loop fuel' f (drop size s) []
          else fieldsFunc_loop fuel' f (drop size s) (cur ++ take size s)
      end
  end.

Definition FieldsFunc (s : bytes) (f : N -> bool) : list bytes :=
  fieldsFunc_loop (length s) f s [].

(** [bytes.Fields(s)]: the ASCII path when no byte has its top bit set,
    [FieldsFunc(s, unicode.IsSpace)] otherwise. *)
Definition Fields (s : bytes) : list bytes :=
  if existsb (fun c => utf8.RuneSelf <=? Byte.to_N c) s
  then FieldsFunc s unicode.IsSpace
  else fieldsASCII s [].

Fixpoint HasPrefix (s prefix : bytes) : bool :=
  match prefix, s with
  | [], _ => true
  | p :: prefix', c :: s' => Byte.eqb p c && HasPrefix s' prefix'
  | _ :: _, [] => false
  end.

(** [bytes.Split(s, sep)] for a non-empty separator: every occurrence of
    [sep] ends a piece; [skip] counts the bytes of a separator still to
    be passed over, [cur] holds the piece that has not ended yet.  Both
    files only ever split on a one-byte separator; the empty separator
    (which explodes [s] into UTF-8 sequences) is outside this model. *)
Fixpoint split_loop (sep s : bytes) (skip : nat) (cur : bytes) : list bytes :=
  match s with
  | [] => [cur]
  | c :: s' =>
      match skip with
      | S k => split_loop sep s' k cur
      | O =>
          if HasPrefix s sep then cur :: split_loop sep s' (length sep - 1) []
          else split_loop sep s' 0 (cur ++ [c])
      end
  end.

Definition Split (s sep : bytes) : list bytes := split_loop sep s 0 [].

End gobytes.

Module gostrings.

(** [strings.Fields] and [strings.Split] are the [bytes] functions on the
    bytes of the string. *)
Definition Fields (s : string) : list string :=
  map string_of_list_byte (gobytes.Fields (list_byte_of_string s)).

Definition Split (s sep : string) : list string :=
  map string_of_list_byte
      (gobytes.Split (list_byte_of_string s) (list_byte_of_string sep)).

Fixpoint trimLeft (cutset : list ascii) (s : string) : string :=
  match s with
  | EmptyString => EmptyString
  | String c s' =>
      if existsb (Ascii.eqb c) cutset then trimLeft cutset s' else s
  end.

(** The bytes of [s] without its trailing bytes from [cutset]. *)
Fixpoint trimRight (cutset : list ascii) (s : string) : string :=
  match s with
  | EmptyString => EmptyString
  | String c s' =>
      match trimRight cutset s' with
      | EmptyString =>
          if existsb (Ascii.eqb c) cutset then EmptyString
          else String c EmptyString
      | t => String c t
      end
  end.

(** [strings.Trim(s, cutset)] for a cutset of ASCII characters: leading
    and trailing characters of the cutset are removed. *)
Definition Trim (s cutset : string) : string :=
  trimRight (list_ascii_of_string cutset)
            (trimLeft (list_ascii_of_string cutset) s).

End gostrings.

Module hex.

(** [reverseHexTable]: the value of a hexadecimal digit, [None] for the
    table's 0xff. *)
Definition fromHexChar (c : byte) : option N :=
  let n := Byte.to_N c in
  if (0x30 <=? n) && (n <=? 0x39) then Some (n - 0x30)
  else if (0x61 <=? n) && (n <=? 0x66) then Some (n - 0x61 + 10)
  else if (0x41 <=? n) && (n <=? 0x46) then Some (n - 0x41 + 10)
  else None.

(** [hex.Decode]: the bytes decoded so far and the error, if any. *)
Fixpoint Decode (src : bytes) (dst : bytes) : bytes * option error :=
  match src with
  | [] => (dst, None)
  | [p] =>
      match fromHexChar p with
      | None => (dst, Some (InvalidByteError p))
      | Some _ => (dst, Some ErrLength)
      end
  | p :: q :: rest =>
      match fromHexChar p with
      | None => (dst, Some (InvalidByteError p))
      | Some a =>
          match fromHexChar q with
          | None => (dst, Some (InvalidByteError q))
          | Some b =>
              Decode rest (dst ++ [byte_of_N (N.lor (N.shiftl a 4) b)])
          end
      end
  end.

Definition DecodeString (s : string) : bytes * option error :=
  Decode (list_byte_of_string s) [].

End hex.

Module binary.

(** [binary.LittleEndian.Uint32(b)], with its bounds check [_ = b[3]]. *)
Definition Uint32 (b : bytes) : result N :=
  b3 <~ index b 3 ;;
  b0 <~ index b 0 ;;
  b1 <~ index b 1 ;;
  b2 <~ index b 2 ;;
  Ok (N.lor (N.lor (N.lor (Byte.to_N b0) (N.shiftl (Byte.to_N b1) 8))
                   (N.shiftl (Byte.to_N b2) 16))
            (N.shiftl (Byte.to_N b3) 24)).

(** [binary.LittleEndian.PutUint32(b, v)], with its bounds check. *)
Definition PutUint32 (b : bytes) (v : N) : result bytes :=
  _ <~ index b 3 ;;
  b <~ store b 0 (byte_of_N v) ;;
  b <~ store b 1 (byte_of_N (N.shiftr v 8)) ;;
  b <~ store b 2 (byte_of_N (N.shiftr v 16)) ;;
  store b 3 (byte_of_N (N.shiftr v 24)).

End binary.

Module math.

(** A [float32] is the 32 bits of its IEEE-754 single-precision
    encoding: Go's [math.Float32frombits] and [math.Float32bits] are bit
    casts, and two floats are bit-equal exactly when they are equal
    here. *)
Record float32 : Type := mkFloat32 {
  f32_bits : N;
  f32_wf : (f32_bits <? 2 ^ 32) = true
}.

Definition Float32frombits (b : N) : float32 :=
  mkFloat32 (b mod 2 ^ 32)
    (proj2 (N.ltb_lt _ _)
       (N.mod_upper_bound b (2 ^ 32) ltac:(vm_compute; discriminate))).

Definition Float32bits (f : float32) : N := f32_bits f.

(** The rational number a finite [float32] stands for ([None] for
    infinities and NaNs): sign bit 31, exponent bits 30..23 biased by
    127, fraction bits 22..0. *)
Definition Float32value (f : float32) : option Q :=
  let b := f32_bits f in
  let e := N.land (N.shiftr b 23) 0xFF in
  let m := N.land b 0x7FFFFF in
  if e =? 255 then None
  else
    let mag : Q :=
      if e =? 0 then Qmult (inject_Z (Z.of_N m)) (Qpower 2 (-149))
      else Qmult (inject_Z (Z.of_N (m + 2 ^ 23)))
                 (Qpower 2 (Z.of_N e - 150)) in
    Some (Qred (if N.testbit b 31 then Qopp mag else mag)).

End math.

Module os.

(** The process environment; [os.Getenv] returns the empty string for a
    variable that is not set, and for the empty name. *)
Definition Getenv (environ : gmap string string) (key : string) : string :=
  match key with
  | EmptyString => EmptyString
  | _ => default EmptyString (environ !! key)
  end.

End os.

Module context.

(** [context.DeadlineExceeded], the error of a context whose deadline
    has passed. *)
Definition DeadlineExceeded : error := ExternalError "context deadline exceeded".

End context.

Module exec.

(** What a program does once started.  It cannot be started; or it runs
    for [duration] nanoseconds, has written [stdout t] to its standard
    output by time [t], and exits with [exit], [Wait] collecting it as it
    exits; or it exits with [exit] before the deadline of the context,
    having written [stdout], but the deadline passes before [Wait] has
    collected it, so that the kill of the context reaches a child that has
    already exited: [reported] says whether the library then reports the
    error of the context. *)
Inductive child : Type :=
| StartFails (e : error)
| Runs (duration : N) (stdout : N -> bytes) (exit : option error)
| Overtaken (stdout : bytes) (exit : option error) (reported : bool).

Inductive child_state : Type := NotStarted | Exited | Killed.

Record output : Type := mkOutput {
  out : bytes;
  err : option error;
  deadline_exceeded : bool;
  final : child_state
}.

Definition killed : error := ExternalError "signal: killed".

(** The error of [Wait] for a child that had exited with [exit] when the
    kill of the context reached it: the exit error if there is one;
    otherwise the error of the context where the library reports it (the
    signal could still be delivered), and nil where it does not. *)
Definition overtaken (exit : option error) (reported : bool) : option error :=
  match exit with
  | Some e => Some e
  | None => if reported then Some context.DeadlineExceeded else None
  end.

(** [exec.CommandContext(ctx, ...).Output()] under a context with
    [timeout], as the package documents it: the context kills the process
    if the deadline passes before the command completes on its own;
    [Output] waits for the process and returns what it wrote to standard
    output together with the error of the wait.  A child that has exited
    but is not yet collected when the deadline passes has written all its
    output, and the error is the one of [overtaken].  [latency] is the
    time between the return of [Output] and the caller's look at
    [ctx.Err()], which reports the deadline once it has passed. *)
Definition Output (timeout : N) (c : child) (latency : N) : output :=
  match c with
  | StartFails e => mkOutput [] (Some e) (timeout <=? latency) NotStarted
  | Runs duration stdout exit =>
      if duration <=? timeout
      then mkOutput (stdout duration) exit (timeout <=? duration + latency) Exited
      else mkOutput (stdout timeout) (Some killed) true Killed
  | Overtaken stdout exit reported =>
      mkOutput stdout (overtaken exit reported) true Exited
  end.

End exec.

Module sync.

(** The counter of a [sync.WaitGroup]. *)
Definition Add (wg : Z) (delta : Z) : result Z :=
  if (wg + delta <? 0)%Z then Panic NegativeWaitGroup else Ok (wg + delta)%Z.

Definition Done (wg : Z) : result Z := Add wg (-1).

End sync.

(** ** The metrics accumulator *)

Inductive value : Type :=
| VFloat32 (f : math.float32)
| VFloat64 (f : float)
| VString (s : string).

Record point : Type := mkPoint {
  measurement : string;
  fields : gmap string value;
  tags : gmap string string
}.

Abbreviation Accumulator := (list point).

(** [acc.AddFields(measurement, fields, tags)]. *)
Definition AddFields (acc : Accumulator) (m : string)
  (fs : gmap string value) (ts : gmap string string) : Accumulator :=
  acc ++ [mkPoint m fs ts].

(** The operating system as a poll cycle sees it. *)
Record world : Type := mkWorld {
  environ : gmap string string;
  spawn : string -> list string -> exec.child;
  latency : N
}.

(** ** k30_reader.go *)

Module k30_reader.

Local Open Scope string_scope.

(* default values *)
Definition GATTTOOL := "/usr/bin/gatttool".
Definition MACADDR := "C1:C4:E4:05:14:95".
Definition VARHANDLE := "0x000e".
Definition GATTFLAGS := "-t random --char-read".

(* env variable names *)
Definition GATT_TOOL := "GATTTOOL".
Definition MAC_ADDR := "MACADDR".
Definition VAR_HANDLE := "VAR_HANDLE".
Definition GATT_FLAGS := "GATTFLAGS".

Record K30 : Type := mkK30 {
  CMD : string;
  ADDR : string;
  HANDLE : string;
  FLAGS : string;
  DumpZeros : bool
}.

Definition colonByte : bytes := B ":".

Definition Float32frombytes (bytes : bytes) : result math.float32 :=
  bits <~ binary.Uint32 bytes ;;
  Ok (math.Float32frombits bits).

Definition Float32bytes (float : math.float32) : result bytes :=
  let bits := math.Float32bits float in
  binary.PutUint32 (make 4) bits.

Definition Second : N := 1000000000.

Record exe_outcome : Type := mkExe {
  wg_after : Z;
  child_after : exec.child_state;
  returned : result (bytes * option error)
}.

Definition exe_cmd (w : world) (cmd : string) (wg : Z) : exe_outcome :=
  let parts := gostrings.Fields cmd in
  match index parts 0 with
  | Panic p => mkExe wg exec.NotStarted (Panic p)
  | Ok head =>
      let parts := drop 1 parts in
      let o := exec.Output (10 * Second) (spawn w head parts) (latency w) in
      if exec.deadline_exceeded o then
        match sync.Done wg with
        | Panic p => mkExe wg (exec.final o) (Panic p)
        | Ok wg' => mkExe wg' (exec.final o) (Ok ([], exec.err o))
        end
      else
        match sync.Done wg with
        | Panic p => mkExe wg (exec.final o) (Panic p)
        | Ok wg' => mkExe wg' (exec.final o) (Ok (exec.out o, exec.err o))
        end
  end.

(** The loop of [gatherk30] from index [x] on. *)
Fixpoint gatherk30_loop (fd : list bytes) (x : nat) (reading : bytes)
  : result bytes :=
  match fd with
  | [] => Ok reading
  | tok :: fd' =>
      let '(data, err) := hex.DecodeString (string_of_list_byte tok) in
      match err with
      | Some e => Panic (PanicError e)
      | None =>
          d0 <~ index data 0 ;;
          reading <~ store reading x d0 ;;
          gatherk30_loop fd' (S x) reading
      end
  end.

(** The statements of [gatherk30] from [bytes.Split] to the float. *)
Definition gatherk30_float (data : bytes) : result math.float32 :=
  let result := gobytes.Split data colonByte in
  r1 <~ index result 1 ;;
  let fd := gobytes.Fields r1 in
  let reading := make 4 in
  reading <~ gatherk30_loop fd 0 reading ;;
  Float32frombytes reading.

Definition gatherk30 (ns : K30) (data : bytes) (acc : Accumulator)
  : Accumulator * result (option error) :=
  let tags : gmap string string := <["sensor" := "k30_co2"]> ∅ in
  let metrics : gmap string value := ∅ in
  match gatherk30_float data with
  | Panic p => (acc, Panic p)
  | Ok float =>
      let metrics := <["co2" := VFloat32 float]> metrics in
      (AddFields acc "k30_reader" metrics tags, Ok None)
  end.

Definition proc (environ : gmap string string) (env path : string) : string :=
  let p := os.Getenv environ env in
  if negb (String.eqb p "") then p else env.

Definition loadPath (environ : gmap string string) (ns : K30) : K30 :=
  let ns := if String.eqb (CMD ns) ""
            then mkK30 (proc environ GATT_TOOL "") (ADDR ns) (HANDLE ns) (FLAGS ns) (DumpZeros ns)
            else ns in
  let ns := if String.eqb (ADDR ns) ""
            then mkK30 (CMD ns) (proc environ MAC_ADDR "") (HANDLE ns) (FLAGS ns) (DumpZeros ns)
            else ns in
  let ns := if String.eqb (HANDLE ns) ""
            then mkK30 (CMD ns) (ADDR ns) (proc environ VAR_HANDLE "") (FLAGS ns) (DumpZeros ns)
            else ns in
  let ns := if String.eqb (FLAGS ns) ""
            then mkK30 (CMD ns) (ADDR ns) (HANDLE ns) (proc environ GATT_FLAGS "") (DumpZeros ns)
            else ns in
  ns.

Record gather_outcome : Type := mkGather {
  collector : K30;
  accumulator : Accumulator;
  ret : result (option error)
}.

(** The command line a cycle builds from the collector's fields. *)
Definition built_cmd (ns : K30) : string :=
  CMD ns +:+ " -b " +:+ ADDR ns +:+ " " +:+ FLAGS ns +:+ " --handle=" +:+ HANDLE ns.

Definition Gather (w : world) (ns : K30) (acc : Accumulator) : gather_outcome :=
  let ns := loadPath (environ w) ns in
  match sync.Add 0 1 with
  | Panic p => mkGather ns acc (Panic p)
  | Ok wg =>
      match returned (exe_cmd w (built_cmd ns) wg) with
      | Panic p => mkGather ns acc (Panic p)
      | Ok (k30, Some err) => mkGather ns acc (Ok (Some err))
      | Ok (k30, None) =>
          match gatherk30 ns k30 acc with
          | (acc', Ok (Some err)) => mkGather ns acc' (Ok (Some err))
          | (acc', Ok None) => mkGather ns acc' (Ok None)
          | (acc', Panic p) => mkGather ns acc' (Panic p)
          end
      end
  end.

End k30_reader.

(** ** pine_64.go *)

Module pine_64.

Local Open Scope string_scope.

(* default values *)
Definition BATTSTATUS := "/sys/class/power_supply/battery/status".
Definition BATTVOLTAGE := "/sys/class/power_supply/battery/voltage_now".
Definition BATTCURRENT := "/sys/class/power_supply/battery/current_now".
Definition BATTCAPACITY := "/sys/class/power_supply/battery/capacity".
Definition BATTHEALTH := "/sys/class/power_supply/battery/health".

(* env variable names *)
Definition BATT_STATUS := "GATTTOOL".
Definition BATT_VOLTAGE := "MACADDR".
Definition BATT_CURRENT := "VAR_HANDLE".
Definition BATT_CAPACITY := "GATTFLAGS".
Definition BATT_HEALTH := "BATTHEALTH".

Record Batt : Type := mkBatt {
  BATSTAT : string;
  BATVOLT : string;
  BATCUR : string;
  BATCAP : string;
  BATHEAL : string
}.

(** The string fields of the struct in declaration order, as the
    reflection loop [mp.Field(i).String()] visits them. *)
Definition struct_fields (ns : Batt) : list string :=
  [BATSTAT ns; BATVOLT ns; BATCUR ns; BATCAP ns; BATHEAL ns].

Record gather_outcome : Type := mkGather {
  accumulator : Accumulator;
  printed : list (string * float);
  ret : result (option error)
}.

Section Gather.

  (** [ioutil.ReadFile] on the file system of the host, and
      [strconv.ParseFloat]. *)
Variable ReadFile : string -> bytes * option error.
Variable ParseFloat : string -> N -> float * option error.

  (** The body of the loop of [Gather] over the remaining fields;
      [printed] collects what [fmt.Println(stat, v)] writes. *)
Fixpoint Gather_loop (paths : list string) (metrics : gmap string value)
    (printed : list (string * float))
    : list (string * float) * result (error + gmap string value) :=
    match paths with
    | [] => (printed, Ok (inr metrics))
    | f :: paths' =>
        let '(b, err) := ReadFile f in
        match err with
        | Some e => (printed, Ok (inl e))
        | None =>
            let s := string_of_list_byte b in
            let field := gostrings.Split f "/" in
            match index field (length field - 1) with
            | Panic p => (printed, Panic p)
            | Ok stat =>
                if String.eqb stat "status" || String.eqb stat "health" then
                  Gather_loop paths' (<[stat := VString s]> metrics) printed
                else
                  let '(v, err) := ParseFloat (gostrings.Trim s LF) 64 in
                  match err with
                  | Some e => (printed, Ok (inl e))
                  | None =>
                      let v := if String.eqb stat "voltage_now"
                               then ((v / 10000) * 0.01)%float else v in
                      Gather_loop paths' (<[stat := VFloat64 v]> metrics)
                                  (printed ++ [(stat, v)])
                  end
            end
        end
    end.

Definition Gather (ns : Batt) (acc : Accumulator) : gather_outcome :=
    let tags : gmap string string := ∅ in
    let metrics : gmap string value := ∅ in
    match Gather_loop (struct_fields ns) metrics [] with
    | (printed, Panic p) => mkGather acc printed (Panic p)
    | (printed, Ok (inl err)) => mkGather acc printed (Ok (Some err))
    | (printed, Ok (inr metrics)) =>
        let tags := <["sensor" := "battery"]> tags in
        mkGather (AddFields acc "battery" metrics tags) printed (Ok None)
    end.

End Gather.

Definition proc (environ : gmap string string) (env path : string) : string :=
  let p := os.Getenv environ env in
  if negb (String.eqb p "") then p else env.

Definition loadPath (environ : gmap string string) (ns : Batt) : Batt :=
  let ns := if String.eqb (BATSTAT ns) ""
            then mkBatt (proc environ BATTSTATUS "") (BATVOLT ns) (BATCUR ns) (BATCAP ns) (BATHEAL ns)
            else ns in
  let ns := if String.eqb (BATVOLT ns) ""
            then mkBatt (BATSTAT ns) (proc environ BATTVOLTAGE "") (BATCUR ns) (BATCAP ns) (BATHEAL ns)
            else ns in
  let ns := if String.eqb (BATCUR ns) ""
            then mkBatt (BATSTAT ns) (BATVOLT ns) (proc environ BATTCURRENT "") (BATCAP ns) (BATHEAL ns)
            else ns in
  let ns := if String.eqb (BATCAP ns) ""
            then mkBatt (BATSTAT ns) (BATVOLT ns) (BATCUR ns) (proc environ BATTCAPACITY "") (BATHEAL ns)
            else ns in
  let ns := if String.eqb (BATHEAL ns) ""
            then mkBatt (BATSTAT ns) (BATVOLT ns) (BATCUR ns) (BATCAP ns) (proc environ BATTHEALTH "")
            else ns in
  ns.

End pine_64.

(** ** Vocabulary of the properties *)

Module Spec.

Definition colon : byte := Byte.x3a.
Definition space : byte := Byte.x20.

Definition has_colon (s : bytes) : bool := existsb (Byte.eqb colon) s.

(** A piece of input ends at the end of the input or at the next colon. *)
Definition ends_piece (rest : bytes) : bool :=
  match rest with
  | [] => true
  | c :: _ => Byte.eqb colon c
  end.

(** White space: the UTF-8 encoding of runes that [unicode.IsSpace]
    accepts, which are the runes of [space_runes]. *)
Definition white (rs : list N) : bytes := flat_map utf8.EncodeRune rs.

Definition all_space (rs : list N) : bool := forallb unicode.IsSpace rs.

Definition some_space (rs : list N) : bool :=
  match rs with
  | [] => false
  | _ => all_space rs
  end.

Definition space_runes : list N :=
  [0x09; 0x0A; 0x0B; 0x0C; 0x0D; 0x20; 0x85; 0xA0; 0x1680;
   0x2000; 0x2001; 0x2002; 0x2003; 0x2004; 0x2005; 0x2006; 0x2007;
   0x2008; 0x2009; 0x200A; 0x2028; 0x2029; 0x202F; 0x205F; 0x3000].

Definition no_space (t : bytes) : bool :=
  forallb (fun c => negb (gobytes.asciiSpace c)) t.

Definition is_ascii (s : bytes) : bool :=
  forallb (fun c => Byte.to_N c <? utf8.RuneSelf) s.

(** The hexadecimal digits 0-9, a-f, A-F and their values. *)
Definition hexdigit (c : byte) : bool :=
  let n := Byte.to_N c in
  ((48 <=? n) && (n <=? 57)) || ((97 <=? n) && (n <=? 102))
  || ((65 <=? n) && (n <=? 70)).

Definition digit_value (c : byte) : N :=
  let n := Byte.to_N c in
  if n <=? 57 then n - 48 else if n <=? 70 then n - 55 else n - 87.

(** The byte a pair of hexadecimal digits denotes. *)
Definition hex2_byte (a b : byte) : byte :=
  byte_of_N (16 * digit_value a + digit_value b).

(** A token of an even, non-zero number of hexadecimal digits, and the
    first byte it denotes. *)
Fixpoint hex_pairs (t : bytes) : bool :=
  match t with
  | [] => true
  | [_] => false
  | a :: b :: t' => hexdigit a && hexdigit b && hex_pairs t'
  end.

(** The bytes a sequence of pairs of hexadecimal digits denotes. *)
Fixpoint hex_bytes (t : bytes) : bytes :=
  match t with
  | a :: b :: t' => hex2_byte a b :: hex_bytes t'
  | _ => []
  end.

Definition valid_hex (t : bytes) : bool :=
  match t with
  | [] => false
  | _ => hex_pairs t
  end.

Definition first_byte (t : bytes) : byte :=
  match t with
  | a :: b :: _ => hex2_byte a b
  | _ => Byte.x00
  end.

(** Formatting of a byte as two lower-case hexadecimal digits, and of a
    buffer as its bytes so formatted, joined by single spaces. *)
Definition hex_char (n : N) : byte :=
  byte_of_N (if n <? 10 then 48 + n else 87 + n).

Definition format_byte (b : byte) : bytes :=
  [hex_char (Byte.to_N b / 16); hex_char (Byte.to_N b mod 16)].

Fixpoint format_bytes (bs : bytes) : bytes :=
  match bs with
  | [] => []
  | [b] => format_byte b
  | b :: bs' => format_byte b ++ space :: format_bytes bs'
  end.

(** The four bytes of a 32-bit value, least significant first. *)
Definition le_bytes (v : N) : bytes :=
  [byte_of_N v; byte_of_N (N.shiftr v 8); byte_of_N (N.shiftr v 16);
   byte_of_N (N.shiftr v 24)].

Definition le_value (b0 b1 b2 b3 : byte) : N :=
  Byte.to_N b0 + Byte.to_N b1 * 2 ^ 8 + Byte.to_N b2 * 2 ^ 16
  + Byte.to_N b3 * 2 ^ 24.

(** The point a successful K30 cycle adds for the reading [f]. *)
Definition k30_point (f : math.float32) : point :=
  mkPoint "k30_reader" (<["co2"%string := VFloat32 f]> ∅)
          (<["sensor"%string := "k30_co2"%string]> ∅).

(** The float32 1.0. *)
Definition one32 : math.float32 := math.Float32frombits 0x3F800000.

(** A collector without configuration, and the output of gatttool for a
    characteristic holding the float 1.0. *)
Definition unconfigured : k30_reader.K30 :=
  k30_reader.mkK30 "" "" "" "" false.

Definition gatttool_one : bytes :=
  B "Characteristic value/descriptor: 00 00 80 3f ".

(** Two environments that differ in [GATTTOOL], and an operating
    system on which no program can be started; the error names the
    program that was asked for. *)
Definition env_a : gmap string string :=
  <["GATTTOOL"%string := "/opt/a/gatttool"%string]> ∅.
Definition env_b : gmap string string :=
  <["GATTTOOL"%string := "/opt/b/gatttool"%string]> ∅.

Definition no_program (head : string) (args : list string) : exec.child :=
  exec.StartFails (ExternalError head).

(** An operating system on which every program prints [text] after one
    millisecond and exits with status 0, and one on which every program
    hangs after printing [text]. *)
Definition prints (text : bytes) (head : string) (args : list string)
  : exec.child :=
  exec.Runs 1000000 (fun _ => text) None.

Definition hangs (text : bytes) (head : string) (args : list string)
  : exec.child :=
  exec.Runs (3600 * k30_reader.Second) (fun _ => text) None.

(** Two poll cycles of one collector, the environment changing in
    between. *)
Definition first_cycle : k30_reader.gather_outcome :=
  k30_reader.Gather (mkWorld env_a no_program 0) unconfigured [].

Definition second_cycle : k30_reader.gather_outcome :=
  k30_reader.Gather (mkWorld env_b no_program 0)
                    (k30_reader.collector first_cycle) [].

(** The last segment of a path, under which [Gather] stores a file. *)
Definition last_segment (f : string) : string :=
  default EmptyString (last (gostrings.Split f "/")).

Definition is_string_stat (stat : string) : bool :=
  String.eqb stat "status" || String.eqb stat "health".

(** A file whose read fails, or that holds a number and does not parse. *)
Definition file_fails (ReadFile : string -> bytes * option error)
  (ParseFloat : string -> N -> float * option error) (f : string) : bool :=
  match ReadFile f with
  | (_, Some _) => true
  | (b, None) =>
      if is_string_stat (last_segment f) then false
      else
        match ParseFloat (gostrings.Trim (string_of_list_byte b) LF) 64 with
        | (_, Some _) => true
        | (_, None) => false
        end
  end.

(** The battery reader configured with the default paths, and a sysfs
    with a charging battery at 4 V and 87 percent. *)
Definition default_batt : pine_64.Batt :=
  pine_64.mkBatt pine_64.BATTSTATUS pine_64.BATTVOLTAGE pine_64.BATTCURRENT
                 pine_64.BATTCAPACITY pine_64.BATTHEALTH.

Definition sysfs (f : string) : bytes * option error :=
  if String.eqb f pine_64.BATTSTATUS then (B ("Charging" +:+ LF), None)
  else if String.eqb f pine_64.BATTVOLTAGE then (B ("4000000" +:+ LF), None)
  else if String.eqb f pine_64.BATTCURRENT then (B ("1200000" +:+ LF), None)
  else if String.eqb f pine_64.BATTCAPACITY then (B ("87" +:+ LF), None)
  else if String.eqb f pine_64.BATTHEALTH then (B ("Good" +:+ LF), None)
  else ([], Some (ExternalError "no such file or directory")).

(** The same sysfs without the capacity file. *)
Definition sysfs_no_capacity (f : string) : bytes * option error :=
  if String.eqb f pine_64.BATTCAPACITY
  then ([], Some (ExternalError "no such file or directory"))
  else sysfs f.

(** The point a successful battery cycle adds for the field map [m]. *)
Definition battery_point (m : gmap string value) : point :=
  mkPoint "battery" m (<["sensor"%string := "battery"%string]> ∅).

(** Parameter resolution as [loadPath] performs it for one field: the
    configured value when it is not empty, else [proc] of the name of the
    environment variable; [builtinDefault] is handed to [proc] as its
    [path] argument. *)
Definition resolve (environ : gmap string string)
  (configValue envName builtinDefault : string) : string :=
  if String.eqb configValue "" then k30_reader.proc environ envName builtinDefault
  else configValue.

(** A parser that reads unsigned decimal integers (exact below [2^53])
    and rejects every other string: an instance of the parser interface
    agreeing with [strconv.ParseFloat] on such inputs, used to run the
    battery reader on concrete files. *)
Fixpoint digits_value (s : string) (acc : N) : option N :=
  match s with
  | EmptyString => Some acc
  | String c s' =>
      let n := N_of_ascii c in
      if (48 <=? n) && (n <=? 57) then digits_value s' (10 * acc + (n - 48))
      else None
  end.

Definition ParseFloat_digits (s : string) (bitSize : N) : float * option error :=
  match s with
  | EmptyString => (0%float, Some (ExternalError "invalid syntax"))
  | _ =>
      match digits_value s 0 with
      | Some n =>
          if n <? 2 ^ 53
          then (PrimFloat.of_uint63 (Uint63.of_Z (Z.of_N n)), None)
          else (0%float, Some (ExternalError "unsupported"))
      | None => (0%float, Some (ExternalError "invalid syntax"))
      end
  end.

End Spec.

(** ** Vocabulary of the further properties *)

Module Props.

Import Spec.

Section Files.

Variable ReadFile : string -> bytes * option error.
Variable ParseFloat : string -> N -> float * option error.

(** The error a file makes the battery cycle end with, if any: the error
    of the read, or for a file that holds a number the error of the
    parser. *)
Definition file_error (f : string) : option error :=
  match ReadFile f with
  | (_, Some e) => Some e
  | (b, None) =>
      if is_string_stat (last_segment f) then None
      else snd (ParseFloat (gostrings.Trim (string_of_list_byte b) LF) 64)
  end.

(** The number a file stands for: what the parser reads in its content
    without leading and trailing line feeds, converted to volts when the
    file is named voltage_now. *)
Definition file_number (f : string) : float :=
  let v := fst (ParseFloat
                  (gostrings.Trim (string_of_list_byte (fst (ReadFile f))) LF)
                  64) in
  if String.eqb (last_segment f) "voltage_now"
  then ((v / 10000) * 0.01)%float else v.

Definition file_value (f : string) : value :=
  if is_string_stat (last_segment f)
  then VString (string_of_list_byte (fst (ReadFile f)))
  else VFloat64 (file_number f).

(** What a file makes the cycle print. *)
Definition file_line (f : string) : list (string * float) :=
  if is_string_stat (last_segment f) then []
  else [(last_segment f, file_number f)].

Definition store_file (m : gmap string value) (f : string) : gmap string value :=
  <[last_segment f := file_value f]> m.

End Files.

(** The battery reader without configuration. *)
Definition empty_batt : pine_64.Batt := pine_64.mkBatt "" "" "" "" "".

(** The default paths with status and voltage exchanged between their
    struct fields. *)
Definition swapped_batt : pine_64.Batt :=
  pine_64.mkBatt pine_64.BATTVOLTAGE pine_64.BATTSTATUS pine_64.BATTCURRENT
                 pine_64.BATTCAPACITY pine_64.BATTHEALTH.

(** An environment that sets the variables the battery reader declares as
    its own. *)
Definition batt_env : gmap string string :=
  <[pine_64.BATT_STATUS := "/tmp/status"%string]>
    (<[pine_64.BATT_HEALTH := "/tmp/health"%string]> ∅).

(** A file system on which the path [""] cannot be opened. *)
Definition no_empty_path (f : string) : bytes * option error :=
  match f with
  | EmptyString => ([], Some (ExternalError "open : no such file or directory"))
  | _ => sysfs f
  end.

(** An operating system on which every program prints [text] and exits
    with status 0 just before the deadline, too late to be collected
    before it. *)
Definition collected_late (text : bytes) (reported : bool) (head : string)
  (args : list string) : exec.child :=
  exec.Overtaken text None reported.

End Props.

(** * Proofs *)

Import Spec k30_reader.

#[local] Arguments Byte.eqb : simpl never.
#[local] Arguments Byte.to_N : simpl never.
#[local] Arguments Byte.of_N : simpl never.

(** Linear arithmetic with division and remainder by constants. *)
Ltac divmod_lia :=
  zify; Z.to_euclidean_division_equations; lia.

(** ** Bytes *)

Lemma to_N_lt_256 (c : byte) : Byte.to_N c < 256.
Proof. pose proof (Byte.to_N_bounded c). lia. Qed.

Lemma to_N_byte_of_N (v : N) : Byte.to_N (byte_of_N v) = v mod 256.
Proof.
  unfold byte_of_N.
  destruct (Byte.of_N (v mod 256)) as [b|] eqn:E.
  - now apply Byte.to_of_N.
  - apply Byte.of_N_None_iff in E.
    pose proof (N.mod_upper_bound v 256 ltac:(discriminate)). lia.
Qed.

Lemma byte_of_N_to_N (c : byte) : byte_of_N (Byte.to_N c) = c.
Proof.
  unfold byte_of_N.
  rewrite N.mod_small by apply to_N_lt_256.
  now rewrite Byte.of_to_N.
Qed.

Lemma to_N_inj (a b : byte) : Byte.to_N a = Byte.to_N b -> a = b.
Proof.
  intros H. rewrite <- (byte_of_N_to_N a), <- (byte_of_N_to_N b). now rewrite H.
Qed.

Lemma byte_eqb_refl (c : byte) : Byte.eqb c c = true.
Proof. now apply Byte.byte_dec_lb. Qed.

Lemma byte_eqb_eq (a b : byte) : Byte.eqb a b = true <-> a = b.
Proof. split; [apply Byte.byte_dec_bl | apply Byte.byte_dec_lb]. Qed.

(** ** [bytes.Split] on the colon *)

Lemma HasPrefix_colon (c : byte) (s : bytes) :
  gobytes.HasPrefix (c :: s) colonByte = Byte.eqb colon c.
Proof.
  change colonByte with [colon]. destruct s; cbn [gobytes.HasPrefix]; apply andb_true_r.
Qed.

Lemma split_loop_no_colon (s cur : bytes) :
  has_colon s = false ->
  gobytes.split_loop colonByte s 0 cur = [cur ++ s].
Proof.
  revert cur. induction s as [|c s IH]; intros cur H.
  - cbn. now rewrite app_nil_r.
  - cbn [has_colon existsb] in H. apply orb_false_iff in H as [Hc Hs].
    cbn [gobytes.split_loop]. rewrite HasPrefix_colon, Hc.
    rewrite (IH _ Hs). now rewrite <- app_assoc.
Qed.

Lemma split_loop_colon (prefix rest cur : bytes) :
  has_colon prefix = false ->
  gobytes.split_loop colonByte (prefix ++ colon :: rest) 0 cur
  = (cur ++ prefix) :: gobytes.split_loop colonByte rest 0 [].
Proof.
  revert cur. induction prefix as [|c s IH]; intros cur H.
  - cbn [app gobytes.split_loop]. rewrite HasPrefix_colon, byte_eqb_refl.
    now rewrite app_nil_r.
  - cbn [has_colon existsb] in H. apply orb_false_iff in H as [Hc Hs].
    cbn [app gobytes.split_loop]. rewrite HasPrefix_colon, Hc.
    rewrite (IH _ Hs). now rewrite <- app_assoc.
Qed.

Lemma split_loop_ends (seg rest cur : bytes) :
  has_colon seg = false -> ends_piece rest = true ->
  exists more, gobytes.split_loop colonByte (seg ++ rest) 0 cur = (cur ++ seg) :: more.
Proof.
  intros Hs Hr. destruct rest as [|c rest].
  - rewrite app_nil_r, split_loop_no_colon by assumption. now exists [].
  - cbn [ends_piece] in Hr. apply byte_eqb_eq in Hr. subst c.
    rewrite split_loop_colon by assumption. eauto.
Qed.

(** The piece [result[1]] of an input with a colon-free prefix. *)
Lemma Split_second (prefix seg rest : bytes) :
  has_colon prefix = false -> has_colon seg = false -> ends_piece rest = true ->
  index (gobytes.Split (prefix ++ colon :: seg ++ rest) colonByte) 1 = Ok seg.
Proof.
  intros Hp Hs Hr. unfold gobytes.Split.
  rewrite split_loop_colon by assumption.
  destruct (split_loop_ends seg rest [] Hs Hr) as [more ->].
  reflexivity.
Qed.

Lemma Split_no_colon (data : bytes) :
  has_colon data = false -> gobytes.Split data colonByte = [data].
Proof. intros H. unfold gobytes.Split. now rewrite split_loop_no_colon. Qed.

(** [bytes.Split] never returns an empty list. *)
Lemma split_loop_nonempty (sep s : bytes) (skip : nat) (cur : bytes) :
  gobytes.split_loop sep s skip cur <> [].
Proof.
  revert skip cur. induction s as [|c s IH]; intros skip cur; cbn [gobytes.split_loop].
  - discriminate.
  - destruct skip; [|apply IH].
    destruct (gobytes.HasPrefix (c :: s) sep); [discriminate | apply IH].
Qed.

(** ** [bytes.Fields] *)

(** Facts about single bytes, by inspection of the 256 bytes. *)
Ltac by_byte c :=
  destruct c; vm_compute; intros; congruence.

Lemma hexdigit_not_space (c : byte) :
  hexdigit c = true -> gobytes.asciiSpace c = false.
Proof. by_byte c. Qed.

Lemma hexdigit_not_colon (c : byte) :
  hexdigit c = true -> Byte.eqb colon c = false.
Proof. by_byte c. Qed.

Lemma hexdigit_ascii (c : byte) :
  hexdigit c = true -> (Byte.to_N c <? utf8.RuneSelf) = true.
Proof. by_byte c. Qed.

Lemma fromHexChar_hexdigit (c : byte) :
  hexdigit c = true -> hex.fromHexChar c = Some (digit_value c).
Proof. by_byte c. Qed.

Lemma fromHexChar_not_hexdigit (c : byte) :
  hexdigit c = false -> hex.fromHexChar c = None.
Proof. by_byte c. Qed.

Lemma digit_value_lt (c : byte) : hexdigit c = true -> digit_value c < 16.
Proof. by_byte c. Qed.

Lemma IsSpace_ascii (c : byte) :
  (Byte.to_N c <? utf8.RuneSelf) = true ->
  unicode.IsSpace (Byte.to_N c) = gobytes.asciiSpace c.
Proof. by_byte c. Qed.

Lemma flush_nonempty (t : bytes) : t <> [] -> gobytes.flush t = [t].
Proof. now destruct t. Qed.

Lemma app_nonempty_r {A : Type} (l1 l2 : list A) : l2 <> [] -> l1 ++ l2 <> [].
Proof. destruct l1; [easy | discriminate]. Qed.

Lemma acceptRanges_lo (i : N) : 0x80 <= fst (utf8.acceptRanges i).
Proof.
  unfold utf8.acceptRanges.
  repeat match goal with
         | |- context [if ?b then _ else _] => destruct b
         end; cbn; lia.
Qed.

(** A rune that starts with a byte above the ASCII range is at least one
    byte wide and covers no ASCII byte. *)
Lemma DecodeRune_width (d : byte) (s : bytes) :
  0x80 <= Byte.to_N d ->
  (1 <= snd (utf8.DecodeRune (d :: s)))%nat
  /\ Forall (fun c => 0x80 <= Byte.to_N c)
            (take (snd (utf8.DecodeRune (d :: s))) (d :: s)).
Proof.
  intros Hd. unfold utf8.DecodeRune.
  destruct (0xF0 <=? utf8.first (Byte.to_N d)); [cbn; split; [lia|auto]|].
  pose proof (acceptRanges_lo (N.shiftr (utf8.first (Byte.to_N d)) 4)) as Hlo.
  destruct (utf8.acceptRanges _) as [lo hi]. cbn [fst] in Hlo.
  destruct (_ <? _)%nat; [cbn; split; [lia|auto]|].
  destruct s as [|c1 s]; [cbn; split; [lia|auto]|].
  destruct (Byte.to_N c1 <? lo) eqn:E1; cbn [orb]; [cbn; split; [lia|auto]|].
  apply N.ltb_ge in E1.
  destruct (hi <? Byte.to_N c1); [cbn; split; [lia|auto]|].
  assert (H1 : 0x80 <= Byte.to_N c1) by lia.
  destruct (_ <=? 2)%nat; [cbn; split; [lia|auto]|].
  destruct s as [|c2 s]; [cbn; split; [lia|auto]|].
  destruct (utf8.cont (Byte.to_N c2)) eqn:E2; cbn [negb];
    [|cbn; split; [lia|auto]].
  apply andb_true_iff in E2 as [E2 _]. apply N.leb_le in E2.
  destruct (_ <=? 3)%nat; [cbn; split; [lia|auto]|].
  destruct s as [|c3 s]; [cbn; split; [lia|auto]|].
  destruct (utf8.cont (Byte.to_N c3)) eqn:E3; cbn [negb];
    [|cbn; split; [lia|auto]].
  apply andb_true_iff in E3 as [E3 _]. apply N.leb_le in E3.
  cbn; split; [lia|auto 6].
Qed.

(** The rune the loop of [FieldsFunc] reads at the head of its input. *)
Lemma head_rune_width (c : byte) (s : bytes) :
  (1 <= snd (if (utf8.RuneSelf <=? Byte.to_N c)%N
             then utf8.DecodeRune (c :: s) else (Byte.to_N c, 1)))%nat.
Proof.
  destruct (utf8.RuneSelf <=? Byte.to_N c) eqn:E; [|cbn; lia].
  apply N.leb_le in E. now apply DecodeRune_width.
Qed.

(** Any fuel from the length of the input on gives the same fields. *)
Lemma fieldsFunc_fuel (f : N -> bool) (fuel1 fuel2 : nat) (s cur : bytes) :
  (length s <= fuel1)%nat -> (length s <= fuel2)%nat ->
  gobytes.fieldsFunc_loop fuel1 f s cur = gobytes.fieldsFunc_loop fuel2 f s cur.
Proof.
  revert fuel2 s cur. induction fuel1 as [|fuel1 IH]; intros fuel2 s cur H1 H2.
  - destruct s; [|cbn in H1; lia]. now destruct fuel2.
  - destruct fuel2 as [|fuel2].
    + destruct s; [reflexivity | cbn in H2; lia].
    + cbn [gobytes.fieldsFunc_loop]. destruct s as [|c s]; [reflexivity|].
      pose proof (head_rune_width c s) as Hw.
      destruct (if utf8.RuneSelf <=? Byte.to_N c then _ else _) as [r size].
      cbn [snd] in Hw. cbn [length] in H1, H2.
      assert (Hd : (length (drop size (c :: s)) <= length s)%nat)
        by (rewrite length_drop; cbn [length]; lia).
      destruct (f r); [f_equal|]; apply IH; lia.
Qed.

#[local] Abbreviation ff s cur :=
  (gobytes.fieldsFunc_loop (length s) unicode.IsSpace s cur).

Lemma ff_ascii_step (c : byte) (s cur : bytes) :
  (Byte.to_N c <? utf8.RuneSelf) = true ->
  ff (c :: s) cur
  = if gobytes.asciiSpace c then gobytes.flush cur ++ ff s []
    else ff s (cur ++ [c]).
Proof.
  intros Hc. cbn [length gobytes.fieldsFunc_loop].
  replace (utf8.RuneSelf <=? Byte.to_N c) with false
    by (symmetry; apply N.leb_gt; now apply N.ltb_lt).
  now rewrite (IsSpace_ascii c Hc).
Qed.

Lemma existsb_not_ascii (s : bytes) :
  existsb (fun c => utf8.RuneSelf <=? Byte.to_N c) s = negb (is_ascii s).
Proof.
  induction s as [|c s IH]; [reflexivity|].
  cbn [existsb is_ascii forallb]. rewrite IH, negb_andb. f_equal.
  apply N.leb_antisym.
Qed.

Lemma ff_ascii (s cur : bytes) :
  is_ascii s = true -> ff s cur = gobytes.fieldsASCII s cur.
Proof.
  revert cur. induction s as [|c s IH]; intros cur H; [reflexivity|].
  cbn [is_ascii forallb] in H. apply andb_true_iff in H as [Hc Hs].
  rewrite (ff_ascii_step c s cur Hc). cbn [gobytes.fieldsASCII].
  now rewrite !IH.
Qed.

(** The ASCII path of [bytes.Fields] is a short cut: in every case the
    fields are those of [FieldsFunc] with [unicode.IsSpace]. *)
Lemma Fields_FieldsFunc (s : bytes) : gobytes.Fields s = ff s [].
Proof.
  unfold gobytes.Fields. rewrite existsb_not_ascii.
  destruct (is_ascii s) eqn:E; cbn [negb]; [|reflexivity].
  symmetry. now apply ff_ascii.
Qed.

Lemma IsSpace_cases (r : N) : unicode.IsSpace r = true -> In r space_runes.
Proof.
  unfold unicode.IsSpace. intros H.
  destruct (r <=? 0xFF) eqn:E.
  - apply N.leb_le in E.
    rewrite !orb_true_iff, andb_true_iff, !N.eqb_eq, !N.leb_le in H.
    unfold space_runes. cbn [In]. lia.
  - rewrite !orb_true_iff, andb_true_iff, !N.eqb_eq, !N.leb_le in H.
    unfold space_runes. cbn [In]. lia.
Qed.

Lemma ff_step (c : byte) (s cur : bytes) (fuel : nat) (r : N) (size : nat) :
  (if utf8.RuneSelf <=? Byte.to_N c then utf8.DecodeRune (c :: s)
   else (Byte.to_N c, 1%nat)) = (r, size) ->
  unicode.IsSpace r = true ->
  gobytes.fieldsFunc_loop (S fuel) unicode.IsSpace (c :: s) cur
  = gobytes.flush cur
    ++ gobytes.fieldsFunc_loop fuel unicode.IsSpace (drop size (c :: s)) [].
Proof. intros H Hr. cbn [gobytes.fieldsFunc_loop]. now rewrite H, Hr. Qed.

(** One rune of white space ends the field in progress. *)
Lemma ff_space_rune (r : N) (s cur : bytes) :
  unicode.IsSpace r = true ->
  ff (utf8.EncodeRune r ++ s) cur = gobytes.flush cur ++ ff s [].
Proof.
  intros H. apply IsSpace_cases in H. unfold space_runes in H. cbn [In] in H.
  repeat (destruct H as [<-|H];
    [ match goal with
      | |- context [utf8.EncodeRune ?R] =>
          let e := eval vm_compute in (utf8.EncodeRune R) in
          change (utf8.EncodeRune R) with e
      end;
      cbn [app length];
      erewrite ff_step by (vm_compute; reflexivity);
      cbn [drop]; f_equal; apply fieldsFunc_fuel; lia
    | ]).
  destruct H.
Qed.

Lemma ff_spaces (rs : list N) (s : bytes) :
  all_space rs = true -> ff (white rs ++ s) [] = ff s [].
Proof.
  induction rs as [|r rs IH]; intros H; [reflexivity|].
  cbn [all_space forallb] in H. apply andb_true_iff in H as [Hr Hrs].
  cbn [white flat_map]. rewrite <- app_assoc.
  rewrite (ff_space_rune r _ [] Hr). cbn [gobytes.flush app].
  now apply IH.
Qed.

Lemma ff_token (t s cur : bytes) :
  is_ascii t = true -> no_space t = true ->
  ff (t ++ s) cur = ff s (cur ++ t).
Proof.
  revert cur. induction t as [|c t IH]; intros cur Ha Hn.
  - now rewrite app_nil_r.
  - cbn [is_ascii no_space forallb] in Ha, Hn.
    apply andb_true_iff in Ha as [Hc Ha]. apply andb_true_iff in Hn as [Hs Hn].
    apply negb_true_iff in Hs.
    cbn [app]. rewrite (ff_ascii_step c _ cur Hc), Hs.
    rewrite (IH _ Ha Hn). now rewrite <- app_assoc.
Qed.

(** A token followed by white space and more input. *)
Lemma ff_token_space (t : bytes) (rs : list N) (s : bytes) :
  t <> [] -> is_ascii t = true -> no_space t = true -> some_space rs = true ->
  ff (t ++ white rs ++ s) [] = t :: ff s [].
Proof.
  intros Ht Ha Hn Hw. rewrite ff_token by assumption. cbn [app].
  destruct rs as [|r rs]; [discriminate|].
  cbn [some_space all_space forallb] in Hw. apply andb_true_iff in Hw as [Hr Hrs].
  cbn [white flat_map]. rewrite <- app_assoc.
  rewrite (ff_space_rune r _ t Hr), (flush_nonempty t Ht). cbn [app].
  f_equal. now apply ff_spaces.
Qed.

(** The last token, with optional trailing white space. *)
Lemma ff_token_end (t : bytes) (rs : list N) :
  t <> [] -> is_ascii t = true -> no_space t = true -> all_space rs = true ->
  ff (t ++ white rs) [] = [t].
Proof.
  intros Ht Ha Hn Hw. rewrite ff_token by assumption. cbn [app].
  destruct rs as [|r rs].
  - cbn. now apply flush_nonempty.
  - cbn [all_space forallb] in Hw. apply andb_true_iff in Hw as [Hr Hrs].
    cbn [white flat_map].
    rewrite (ff_space_rune r _ t Hr), (flush_nonempty t Ht).
    rewrite <- (app_nil_r (flat_map _ rs)).
    change (flat_map utf8.EncodeRune rs) with (white rs).
    now rewrite (ff_spaces rs [] Hrs).
Qed.

(** Input of white space only has no field. *)
Lemma Fields_all_space (rs : list N) :
  all_space rs = true -> gobytes.Fields (white rs) = [].
Proof.
  intros H. rewrite Fields_FieldsFunc.
  rewrite <- (app_nil_r (white rs)). now rewrite ff_spaces.
Qed.

Lemma white_no_colon (rs : list N) :
  all_space rs = true -> has_colon (white rs) = false.
Proof.
  induction rs as [|r rs IH]; intros H; [reflexivity|].
  cbn [all_space forallb] in H. apply andb_true_iff in H as [Hr Hrs].
  cbn [white flat_map]. unfold has_colon. rewrite existsb_app.
  fold (has_colon (flat_map utf8.EncodeRune rs)).
  change (flat_map utf8.EncodeRune rs) with (white rs). rewrite (IH Hrs).
  rewrite orb_false_r.
  apply IsSpace_cases in Hr. unfold space_runes in Hr. cbn [In] in Hr.
  repeat (destruct Hr as [<-|Hr]; [vm_compute; reflexivity|]).
  destruct Hr.
Qed.

Lemma fieldsFunc_cur (fuel : nat) (f : N -> bool) (s cur : bytes) :
  cur <> [] -> gobytes.fieldsFunc_loop fuel f s cur <> [].
Proof.
  revert s cur. induction fuel as [|fuel IH]; intros s cur H;
    cbn [gobytes.fieldsFunc_loop].
  - now rewrite flush_nonempty.
  - destruct s as [|c s]; [now rewrite flush_nonempty|].
    destruct (if utf8.RuneSelf <=? Byte.to_N c then _ else _) as [r size].
    destruct (f r).
    + now rewrite flush_nonempty.
    + apply IH. destruct cur; [easy | discriminate].
Qed.

Lemma fieldsFunc_has_token (fuel : nat) (pre post cur : bytes) (c : byte) :
  (Byte.to_N c <? utf8.RuneSelf) = true -> gobytes.asciiSpace c = false ->
  (length (pre ++ c :: post) <= fuel)%nat ->
  gobytes.fieldsFunc_loop fuel unicode.IsSpace (pre ++ c :: post) cur <> [].
Proof.
  intros Hc Hs. revert pre cur.
  induction fuel as [|fuel IH]; intros pre cur Hl.
  - rewrite length_app in Hl. cbn [length] in Hl. lia.
  - cbn [gobytes.fieldsFunc_loop].
    destruct pre as [|d pre]; cbn [app].
    + (* the token starts here *)
      replace (utf8.RuneSelf <=? Byte.to_N c) with false
        by (symmetry; apply N.leb_gt; now apply N.ltb_lt).
      rewrite (IsSpace_ascii c Hc), Hs.
      apply fieldsFunc_cur. now apply app_nonempty_r.
    + cbn [app length] in Hl.
      destruct (utf8.RuneSelf <=? Byte.to_N d) eqn:Ed.
      * apply N.leb_le in Ed.
        destruct (DecodeRune_width d (pre ++ c :: post) Ed) as [H1 Hall].
        destruct (utf8.DecodeRune (d :: pre ++ c :: post)) as [r size].
        cbn [snd] in H1, Hall.
        assert (Hsize : (size <= length (d :: pre))%nat).
        { destruct (Nat.le_gt_cases size (length (d :: pre))) as [|Hgt];
            [assumption|exfalso].
          assert (Hin : c ∈ take size ((d :: pre) ++ c :: post)).
          { apply list_elem_of_lookup. exists (length (d :: pre)).
            rewrite lookup_take_lt by lia.
            now rewrite list_lookup_middle. }
          rewrite Forall_forall in Hall. apply Hall in Hin.
          apply N.ltb_lt in Hc. change (utf8.RuneSelf) with 128 in *. lia. }
        change (d :: pre ++ c :: post) with ((d :: pre) ++ c :: post).
        rewrite drop_app_le by exact Hsize.
        destruct (unicode.IsSpace r).
        -- apply app_nonempty_r. apply IH.
           rewrite length_app, length_drop. cbn [length] in *.
           rewrite length_app in Hl. cbn [length] in Hl. lia.
        -- apply fieldsFunc_cur. apply app_nonempty_r.
           destruct size; [lia | discriminate].
      * cbn [drop take].
        destruct (unicode.IsSpace (Byte.to_N d)).
        -- apply app_nonempty_r. apply IH. lia.
        -- apply fieldsFunc_cur. now apply app_nonempty_r.
Qed.

(** Input with an ASCII byte that is not white space has a field. *)
Lemma Fields_has_token (pre post : bytes) (c : byte) :
  (Byte.to_N c <? utf8.RuneSelf) = true -> gobytes.asciiSpace c = false ->
  gobytes.Fields (pre ++ c :: post) <> [].
Proof.
  intros Hc Hs. rewrite Fields_FieldsFunc. now apply fieldsFunc_has_token.
Qed.

(** ** [hex.DecodeString] *)

(** Induction over a list two elements at a time. *)
Lemma list_pair_ind {A : Type} (P : list A -> Prop) :
  P [] -> (forall a, P [a]) ->
  (forall a b l, P l -> P (a :: b :: l)) ->
  forall l, P l.
Proof.
  intros H0 H1 H2.
  assert (H : forall l, P l /\ forall a, P (a :: l)).
  { induction l as [|b l [IH1 IH2]]; split; auto. }
  intros l. apply H.
Qed.

Lemma lor_shiftl_add (a b k : N) :
  a < 2 ^ k -> N.lor a (N.shiftl b k) = a + b * 2 ^ k.
Proof.
  intros Ha.
  assert (Hand : N.land a (N.shiftl b k) = 0).
  { apply N.bits_inj. intros i. rewrite N.land_spec, N.bits_0.
    destruct (N.lt_ge_cases i k) as [Hi|Hi].
    - rewrite (N.shiftl_spec_low b k i Hi). apply andb_false_r.
    - rewrite <- (N.mod_small a (2 ^ k) Ha).
      now rewrite N.mod_pow2_bits_high. }
  rewrite <- N.lxor_lor by exact Hand.
  rewrite <- N.add_nocarry_lxor by exact Hand.
  now rewrite N.shiftl_mul_pow2.
Qed.

Lemma hex_pair_byte (a b : byte) :
  hexdigit a = true -> hexdigit b = true ->
  byte_of_N (N.lor (N.shiftl (digit_value a) 4) (digit_value b)) = hex2_byte a b.
Proof.
  intros Ha Hb. unfold hex2_byte. f_equal.
  rewrite N.lor_comm, lor_shiftl_add by now apply digit_value_lt.
  change (2 ^ 4) with 16. lia.
Qed.

Lemma Decode_valid (t dst : bytes) :
  hex_pairs t = true -> hex.Decode t dst = (dst ++ hex_bytes t, None).
Proof.
  revert dst. induction t as [|a|a b t IH] using list_pair_ind; intros dst H.
  - cbn. now rewrite app_nil_r.
  - discriminate.
  - cbn [hex_pairs] in H.
    apply andb_true_iff in H as [H Ht]. apply andb_true_iff in H as [Ha Hb].
    cbn [hex.Decode hex_bytes].
    rewrite (fromHexChar_hexdigit a Ha), (fromHexChar_hexdigit b Hb).
    rewrite (IH _ Ht), (hex_pair_byte a b Ha Hb).
    now rewrite <- app_assoc.
Qed.

Lemma Decode_invalid (t dst : bytes) :
  hex_pairs t = false -> exists d e, hex.Decode t dst = (d, Some e).
Proof.
  revert dst. induction t as [|a|a b t IH] using list_pair_ind; intros dst H.
  - discriminate.
  - cbn [hex.Decode]. destruct (hex.fromHexChar a); eauto.
  - cbn [hex_pairs] in H. cbn [hex.Decode].
    destruct (hexdigit a) eqn:Ha.
    + rewrite (fromHexChar_hexdigit a Ha).
      destruct (hexdigit b) eqn:Hb.
      * rewrite (fromHexChar_hexdigit b Hb). apply IH. exact H.
      * rewrite (fromHexChar_not_hexdigit b Hb). eauto.
    + rewrite (fromHexChar_not_hexdigit a Ha). eauto.
Qed.

Lemma DecodeString_valid (t : bytes) :
  valid_hex t = true ->
  exists rest,
    hex.DecodeString (string_of_list_byte t) = (first_byte t :: rest, None).
Proof.
  intros H. unfold hex.DecodeString.
  rewrite list_byte_of_string_of_list_byte.
  destruct t as [|a [|b t]]; try discriminate.
  cbn [valid_hex] in H. rewrite (Decode_valid _ [] H).
  cbn [hex_bytes first_byte app]. eauto.
Qed.

(** A token that is not valid makes the loop body panic: with the error
    of the decoder, or at [data[0]] when the token is empty. *)
Lemma DecodeString_invalid (t : bytes) :
  valid_hex t = false ->
  (exists d e, hex.DecodeString (string_of_list_byte t) = (d, Some e))
  \/ hex.DecodeString (string_of_list_byte t) = ([], None).
Proof.
  intros H. unfold hex.DecodeString.
  rewrite list_byte_of_string_of_list_byte.
  destruct t as [|a t]; [now right|]. left.
  apply Decode_invalid. exact H.
Qed.

(** ** The loop of [gatherk30] *)

Lemma gatherk30_loop_valid (toks : list bytes) (x : nat) (reading : bytes) :
  forallb valid_hex toks = true ->
  (x + length toks <= length reading)%nat ->
  gatherk30_loop toks x reading
  = Ok (take x reading ++ map first_byte toks ++ drop (x + length toks) reading).
Proof.
  revert x reading. induction toks as [|t toks IH]; intros x reading Hv Hl.
  - cbn [gatherk30_loop map length app]. rewrite Nat.add_0_r.
    now rewrite take_drop.
  - cbn [forallb] in Hv. apply andb_true_iff in Hv as [Ht Hv].
    cbn [length] in Hl. cbn [gatherk30_loop].
    destruct (DecodeString_valid t Ht) as [rest ->].
    cbn [index nth_error rbind]. unfold store.
    destruct (Nat.ltb_spec x (length reading)) as [Hx|Hx]; [|lia].
    cbn [rbind]. rewrite IH; [|exact Hv|rewrite length_insert; lia].
    f_equal. cbn [map length].
    rewrite (take_S_r _ _ (first_byte t)) by now apply list_lookup_insert_eq.
    rewrite take_insert_ge by lia.
    rewrite drop_insert_lt by lia.
    rewrite <- !app_assoc. cbn [app].
    now replace (S x + length toks)%nat with (x + S (length toks))%nat by lia.
Qed.

(** More than four valid tokens overflow the buffer of four bytes. *)
Lemma gatherk30_loop_overflow (toks : list bytes) (x : nat) (reading : bytes) :
  forallb valid_hex toks = true ->
  (x <= length reading < x + length toks)%nat ->
  gatherk30_loop toks x reading
  = Panic (IndexOutOfRange (length reading) (length reading)).
Proof.
  revert x reading. induction toks as [|t toks IH]; intros x reading Hv Hl.
  - cbn [length] in Hl. lia.
  - cbn [forallb] in Hv. apply andb_true_iff in Hv as [Ht Hv].
    cbn [length] in Hl. cbn [gatherk30_loop].
    destruct (DecodeString_valid t Ht) as [rest ->].
    cbn [index nth_error rbind]. unfold store.
    destruct (Nat.ltb_spec x (length reading)) as [Hx|Hx]; cbn [rbind].
    + rewrite IH; [|exact Hv|rewrite length_insert; lia].
      now rewrite length_insert.
    + replace x with (length reading) by lia. reflexivity.
Qed.

Lemma gatherk30_loop_invalid (toks : list bytes) (x : nat) (reading : bytes) :
  forallb valid_hex toks = false ->
  exists p, gatherk30_loop toks x reading = Panic p.
Proof.
  revert x reading. induction toks as [|t toks IH]; intros x reading Hv.
  - discriminate.
  - cbn [forallb] in Hv. cbn [gatherk30_loop].
    destruct (valid_hex t) eqn:Ht.
    + destruct (DecodeString_valid t Ht) as [rest ->].
      cbn [index nth_error rbind]. unfold store.
      destruct (x <? length reading)%nat; cbn [rbind]; [apply IH; exact Hv | eauto].
    + destruct (DecodeString_invalid t Ht) as [(d & e & ->)| ->]; eauto.
Qed.

(** ** Little-endian words and [float32] *)

Lemma float32_ext (f g : math.float32) :
  math.f32_bits f = math.f32_bits g -> f = g.
Proof.
  destruct f as [a Ha], g as [b Hb]. cbn. intros ->.
  f_equal. apply Eqdep_dec.UIP_dec. apply Bool.bool_dec.
Qed.

Lemma f32_bits_lt (f : math.float32) : math.f32_bits f < 2 ^ 32.
Proof. destruct f as [a Ha]. cbn. now apply N.ltb_lt. Qed.

Lemma Float32frombits_bits (f : math.float32) :
  math.Float32frombits (math.Float32bits f) = f.
Proof.
  apply float32_ext. cbn. apply N.mod_small. apply f32_bits_lt.
Qed.

Lemma Uint32_bytes (b0 b1 b2 b3 : byte) :
  binary.Uint32 [b0; b1; b2; b3] = Ok (le_value b0 b1 b2 b3).
Proof.
  unfold binary.Uint32, le_value. cbn [index nth_error rbind]. f_equal.
  pose proof (to_N_lt_256 b0). pose proof (to_N_lt_256 b1).
  pose proof (to_N_lt_256 b2).
  rewrite (lor_shiftl_add (Byte.to_N b0) (Byte.to_N b1) 8)
    by (change (2 ^ 8) with 256; lia).
  rewrite (lor_shiftl_add _ (Byte.to_N b2) 16)
    by (change (2 ^ 8) with 256; change (2 ^ 16) with 65536; lia).
  rewrite (lor_shiftl_add _ (Byte.to_N b3) 24)
    by (change (2 ^ 8) with 256; change (2 ^ 16) with 65536;
        change (2 ^ 24) with 16777216; lia).
  reflexivity.
Qed.

Lemma le_value_lt (b0 b1 b2 b3 : byte) : le_value b0 b1 b2 b3 < 2 ^ 32.
Proof.
  unfold le_value.
  pose proof (to_N_lt_256 b0). pose proof (to_N_lt_256 b1).
  pose proof (to_N_lt_256 b2). pose proof (to_N_lt_256 b3).
  change (2 ^ 8) with 256; change (2 ^ 16) with 65536;
    change (2 ^ 24) with 16777216; change (2 ^ 32) with 4294967296. lia.
Qed.

Lemma le_bytes_value (b0 b1 b2 b3 : byte) :
  le_bytes (le_value b0 b1 b2 b3) = [b0; b1; b2; b3].
Proof.
  unfold le_bytes, le_value.
  pose proof (to_N_lt_256 b0). pose proof (to_N_lt_256 b1).
  pose proof (to_N_lt_256 b2). pose proof (to_N_lt_256 b3).
  rewrite !N.shiftr_div_pow2.
  change (2 ^ 8) with 256; change (2 ^ 16) with 65536;
    change (2 ^ 24) with 16777216.
  f_equal; [|f_equal; [|f_equal; [|f_equal]]];
    apply to_N_inj; rewrite to_N_byte_of_N; divmod_lia.
Qed.

Lemma le_value_bytes (v : N) :
  v < 2 ^ 32 ->
  binary.Uint32 (le_bytes v) = Ok v.
Proof.
  intros Hv. unfold le_bytes. rewrite Uint32_bytes. f_equal.
  unfold le_value. rewrite !to_N_byte_of_N, !N.shiftr_div_pow2.
  change (2 ^ 8) with 256; change (2 ^ 16) with 65536;
    change (2 ^ 24) with 16777216; change (2 ^ 32) with 4294967296 in Hv.
  divmod_lia.
Qed.

Lemma le_value_le_bytes (v : N) :
  v < 2 ^ 32 ->
  le_value (byte_of_N v) (byte_of_N (N.shiftr v 8))
           (byte_of_N (N.shiftr v 16)) (byte_of_N (N.shiftr v 24)) = v.
Proof.
  intros Hv. pose proof (le_value_bytes v Hv) as H.
  unfold le_bytes in H. rewrite Uint32_bytes in H. now injection H.
Qed.

Lemma Float32bytes_le (f : math.float32) :
  Float32bytes f = Ok (le_bytes (math.f32_bits f)).
Proof. reflexivity. Qed.

Lemma Float32frombytes_value (b0 b1 b2 b3 : byte) :
  Float32frombytes [b0; b1; b2; b3]
  = Ok (math.Float32frombits (le_value b0 b1 b2 b3)).
Proof. unfold Float32frombytes. now rewrite Uint32_bytes. Qed.

Lemma Float32bytes_frombits_value (b0 b1 b2 b3 : byte) :
  Float32bytes (math.Float32frombits (le_value b0 b1 b2 b3))
  = Ok [b0; b1; b2; b3].
Proof.
  rewrite Float32bytes_le. f_equal. cbn [math.Float32frombits math.f32_bits].
  rewrite N.mod_small by apply le_value_lt. apply le_bytes_value.
Qed.

(** ** The decoder on well-formed frames *)

Lemma has_colon_app (s t : bytes) :
  has_colon (s ++ t) = has_colon s || has_colon t.
Proof. apply existsb_app. Qed.

Lemma gatherk30_float_piece (prefix seg rest : bytes) :
  has_colon prefix = false -> has_colon seg = false -> ends_piece rest = true ->
  gatherk30_float (prefix ++ colon :: seg ++ rest)
  = (reading <~ gatherk30_loop (gobytes.Fields seg) 0 (make 4) ;;
     Float32frombytes reading).
Proof.
  intros Hp Hs Hr. unfold gatherk30_float.
  now rewrite (Split_second prefix seg rest Hp Hs Hr).
Qed.

Lemma drop_repeat {A : Type} (x : A) (n m : nat) :
  drop n (repeat x m) = repeat x (m - n).
Proof.
  revert m. induction n as [|n IH]; intros [|m]; cbn; try reflexivity.
  now rewrite IH.
Qed.

(** Up to four valid tokens fill the buffer from the left; the rest of the
    buffer keeps the zeros of [make]. *)
Lemma gatherk30_float_valid (prefix seg rest : bytes) (toks : list bytes) :
  has_colon prefix = false -> has_colon seg = false -> ends_piece rest = true ->
  gobytes.Fields seg = toks -> forallb valid_hex toks = true ->
  (length toks <= 4)%nat ->
  gatherk30_float (prefix ++ colon :: seg ++ rest)
  = Float32frombytes (map first_byte toks ++ repeat Byte.x00 (4 - length toks)).
Proof.
  intros Hp Hs Hr Hf Hv Hl.
  rewrite gatherk30_float_piece by assumption. rewrite Hf.
  rewrite gatherk30_loop_valid by (try assumption; cbn; lia).
  cbn [rbind]. unfold make. rewrite drop_repeat. reflexivity.
Qed.

Lemma gatherk30_of_float (ns : K30) (data : bytes) (acc : Accumulator)
  (f : math.float32) :
  gatherk30_float data = Ok f ->
  gatherk30 ns data acc = (acc ++ [k30_point f], Ok None).
Proof. intros H. unfold gatherk30. now rewrite H. Qed.

Lemma gatherk30_of_panic (ns : K30) (data : bytes) (acc : Accumulator)
  (p : panic) :
  gatherk30_float data = Panic p ->
  gatherk30 ns data acc = (acc, Panic p).
Proof. intros H. unfold gatherk30. now rewrite H. Qed.

Lemma some_space_all (rs : list N) : some_space rs = true -> all_space rs = true.
Proof. now destruct rs. Qed.

(** The fields of four two-digit tokens separated by white space. *)
Lemma Fields_four_pairs (r0 r1 r2 r3 r4 : list N) (a0 b0 a1 b1 a2 b2 a3 b3 : byte) :
  all_space r0 = true -> some_space r1 = true -> some_space r2 = true ->
  some_space r3 = true -> all_space r4 = true ->
  forallb hexdigit [a0; b0; a1; b1; a2; b2; a3; b3] = true ->
  let seg := white r0 ++ [a0; b0] ++ white r1 ++ [a1; b1] ++ white r2
             ++ [a2; b2] ++ white r3 ++ [a3; b3] ++ white r4 in
  has_colon seg = false
  /\ gobytes.Fields seg = [[a0; b0]; [a1; b1]; [a2; b2]; [a3; b3]].
Proof.
  intros H0 H1 H2 H3 H4 Hh seg. subst seg.
  cbn [forallb] in Hh. rewrite !andb_true_iff in Hh.
  destruct Hh as (Ha0 & Hb0 & Ha1 & Hb1 & Ha2 & Hb2 & Ha3 & Hb3 & _).
  pose proof (some_space_all _ H1) as H1'.
  pose proof (some_space_all _ H2) as H2'.
  pose proof (some_space_all _ H3) as H3'.
  assert (Hpair : forall a b, hexdigit a = true -> hexdigit b = true ->
            has_colon [a; b] = false /\ is_ascii [a; b] = true
            /\ no_space [a; b] = true).
  { intros a b Ha Hb. cbn [has_colon is_ascii no_space existsb forallb].
    rewrite (hexdigit_not_colon a Ha), (hexdigit_not_colon b Hb),
      (hexdigit_ascii a Ha), (hexdigit_ascii b Hb),
      (hexdigit_not_space a Ha), (hexdigit_not_space b Hb). easy. }
  destruct (Hpair a0 b0 Ha0 Hb0) as (C0 & A0 & N0).
  destruct (Hpair a1 b1 Ha1 Hb1) as (C1 & A1 & N1).
  destruct (Hpair a2 b2 Ha2 Hb2) as (C2 & A2 & N2).
  destruct (Hpair a3 b3 Ha3 Hb3) as (C3 & A3 & N3).
  split.
  - rewrite !has_colon_app, C0, C1, C2, C3.
    now rewrite !white_no_colon by assumption.
  - rewrite Fields_FieldsFunc.
    rewrite ff_spaces by assumption.
    rewrite ff_token_space by (assumption || discriminate).
    rewrite ff_token_space by (assumption || discriminate).
    rewrite ff_token_space by (assumption || discriminate).
    rewrite ff_token_end by (assumption || discriminate).
    reflexivity.
Qed.

(** ** Formatting of bytes as hexadecimal digits *)

Lemma format_byte_hex (c : byte) :
  exists a b, format_byte c = [a; b] /\ hexdigit a = true /\ hexdigit b = true
              /\ hex2_byte a b = c.
Proof. destruct c; do 2 eexists; vm_compute; repeat split; reflexivity. Qed.

(** C1: an input [prefix:H0 H1 H2 H3] whose prefix has no colon and whose
    four tokens of two hexadecimal digits are delimited by white space
    (runes that [unicode.IsSpace] accepts, in UTF-8) makes [gatherk30] add
    the float32 whose little-endian bytes are the bytes the four tokens
    denote; and for every float32, the frame ["x:"] followed by its four
    little-endian bytes, each formatted as two hexadecimal digits and
    joined by spaces, decodes to that very float. *)
Theorem C1_decode_four_tokens_roundtrip
  (ns : K30) (acc : Accumulator) (prefix : bytes) (r0 r1 r2 r3 r4 : list N)
  (a0 b0 a1 b1 a2 b2 a3 b3 : byte)
  (Hprefix : has_colon prefix = false)
  (Hr0 : all_space r0 = true) (Hr1 : some_space r1 = true)
  (Hr2 : some_space r2 = true) (Hr3 : some_space r3 = true)
  (Hr4 : all_space r4 = true)
  (Hhex : forallb hexdigit [a0; b0; a1; b1; a2; b2; a3; b3] = true) :
  (exists f,
      gatherk30 ns
        (prefix ++ colon :: white r0 ++ [a0; b0] ++ white r1 ++ [a1; b1]
           ++ white r2 ++ [a2; b2] ++ white r3 ++ [a3; b3] ++ white r4) acc
      = (acc ++ [k30_point f], Ok None)
      /\ Float32bytes f
         = Ok [hex2_byte a0 b0; hex2_byte a1 b1; hex2_byte a2 b2;
               hex2_byte a3 b3])
  /\ (forall g : math.float32,
        exists bs,
          Float32bytes g = Ok bs
          /\ gatherk30 ns (B "x:" ++ format_bytes bs) acc
             = (acc ++ [k30_point g], Ok None)).
Proof.
  assert (Hfour : forall p v0 v1 v2 v3 v4 c0 d0 c1 d1 c2 d2 c3 d3,
    has_colon p = false -> all_space v0 = true -> some_space v1 = true ->
    some_space v2 = true -> some_space v3 = true -> all_space v4 = true ->
    forallb hexdigit [c0; d0; c1; d1; c2; d2; c3; d3] = true ->
    gatherk30_float
      (p ++ colon :: white v0 ++ [c0; d0] ++ white v1 ++ [c1; d1]
         ++ white v2 ++ [c2; d2] ++ white v3 ++ [c3; d3] ++ white v4)
    = Ok (math.Float32frombits
            (le_value (hex2_byte c0 d0) (hex2_byte c1 d1) (hex2_byte c2 d2)
                      (hex2_byte c3 d3)))).
  { intros p v0 v1 v2 v3 v4 c0 d0 c1 d1 c2 d2 c3 d3 Hp H0 H1 H2 H3 H4 Hh.
    destruct (Fields_four_pairs v0 v1 v2 v3 v4 c0 d0 c1 d1 c2 d2 c3 d3
                H0 H1 H2 H3 H4 Hh) as [Hc Hf].
    set (seg := white v0 ++ _) in *.
    rewrite <- (app_nil_r seg).
    rewrite (gatherk30_float_valid p seg [] _ Hp Hc eq_refl Hf).
    - cbn [map first_byte length Nat.sub repeat app].
      apply Float32frombytes_value.
    - cbn [forallb valid_hex hex_pairs] in *.
      rewrite !andb_true_iff in *. tauto.
    - cbn. lia. }
  split.
  - eexists. split.
    + apply gatherk30_of_float. now apply Hfour.
    + apply Float32bytes_frombits_value.
  - intros g. exists (le_bytes (math.f32_bits g)). split; [apply Float32bytes_le|].
    apply gatherk30_of_float.
    unfold le_bytes. cbn [format_bytes].
    destruct (format_byte_hex (byte_of_N (math.f32_bits g)))
      as (c0 & d0 & -> & Hc0 & Hd0 & E0).
    destruct (format_byte_hex (byte_of_N (N.shiftr (math.f32_bits g) 8)))
      as (c1 & d1 & -> & Hc1 & Hd1 & E1).
    destruct (format_byte_hex (byte_of_N (N.shiftr (math.f32_bits g) 16)))
      as (c2 & d2 & -> & Hc2 & Hd2 & E2).
    destruct (format_byte_hex (byte_of_N (N.shiftr (math.f32_bits g) 24)))
      as (c3 & d3 & -> & Hc3 & Hd3 & E3).
    change (B "x:" ++ [c0; d0] ++ space :: [c1; d1] ++ space :: [c2; d2]
              ++ space :: [c3; d3])
      with (B "x" ++ colon :: white [] ++ [c0; d0] ++ white [0x20]
              ++ [c1; d1] ++ white [0x20] ++ [c2; d2] ++ white [0x20]
              ++ [c3; d3] ++ white []).
    rewrite Hfour; try reflexivity.
    + f_equal. rewrite E0, E1, E2, E3.
      rewrite le_value_le_bytes by apply f32_bits_lt.
      apply Float32frombits_bits.
    + cbn [forallb]. now rewrite Hc0, Hd0, Hc1, Hd1, Hc2, Hd2, Hc3, Hd3.
Qed.

Lemma C1_decode_four_tokens_witness :
  exists f,
    gatherk30 unconfigured gatttool_one [] = ([k30_point f], Ok None)
    /\ Float32bytes f = Ok [Byte.x00; Byte.x00; Byte.x80; Byte.x3f].
Proof.
  exact (proj1 (C1_decode_four_tokens_roundtrip unconfigured []
                  (B "Characteristic value/descriptor")
                  [0x20] [0x20] [0x20] [0x20] [0x20]
                  Byte.x30 Byte.x30 Byte.x30 Byte.x30
                  Byte.x38 Byte.x30 Byte.x33 Byte.x66
                  eq_refl eq_refl eq_refl eq_refl eq_refl eq_refl eq_refl)).
Defined.

(** ** The decoder on malformed frames *)

Lemma gatherk30_never_error (ns : K30) (data : bytes) (acc : Accumulator) :
  (exists p, gatherk30 ns data acc = (acc, Panic p))
  \/ (exists f, gatherk30_float data = Ok f
                /\ gatherk30 ns data acc = (acc ++ [k30_point f], Ok None)).
Proof.
  unfold gatherk30. destruct (gatherk30_float data) as [f|p]; eauto.
Qed.

Lemma gatherk30_float_no_colon (data : bytes) :
  has_colon data = false ->
  gatherk30_float data = Panic (IndexOutOfRange 1 1).
Proof.
  intros H. unfold gatherk30_float. now rewrite Split_no_colon.
Qed.

(** C2, as the code has it: [gatherk30] never returns a decode error.
    Input without a colon panics at [result[1]]; a first post-colon piece
    with a token that is not a non-empty, even-length run of hexadecimal
    digits panics; neither adds a field.  A piece with fewer than four
    tokens, all valid, is not rejected: the call returns nil and adds the
    float of the tokens' first bytes followed by zero bytes. *)
Theorem C2_malformed_input_panics_or_pads
  (ns : K30) (acc : Accumulator) (data prefix seg rest : bytes)
  (Hprefix : has_colon prefix = false) (Hseg : has_colon seg = false)
  (Hrest : ends_piece rest = true) :
  (forall e, snd (gatherk30 ns data acc) <> Ok (Some e))
  /\ (forall p, snd (gatherk30 ns data acc) = Panic p ->
                fst (gatherk30 ns data acc) = acc)
  /\ (has_colon data = false ->
      gatherk30 ns data acc = (acc, Panic (IndexOutOfRange 1 1)))
  /\ (forallb valid_hex (gobytes.Fields seg) = false ->
      exists p, gatherk30 ns (prefix ++ colon :: seg ++ rest) acc = (acc, Panic p))
  /\ (forallb valid_hex (gobytes.Fields seg) = true ->
      (length (gobytes.Fields seg) < 4)%nat ->
      exists f,
        Float32frombytes
          (map first_byte (gobytes.Fields seg)
             ++ repeat Byte.x00 (4 - length (gobytes.Fields seg))) = Ok f
        /\ gatherk30 ns (prefix ++ colon :: seg ++ rest) acc
           = (acc ++ [k30_point f], Ok None)).
Proof.
  repeat split.
  - intros e. destruct (gatherk30_never_error ns data acc)
      as [[p ->]|(f & _ & ->)]; discriminate.
  - intros p. destruct (gatherk30_never_error ns data acc)
      as [[q ->]|(f & _ & ->)]; [reflexivity | discriminate].
  - intros H. apply gatherk30_of_panic. now apply gatherk30_float_no_colon.
  - intros Hv.
    destruct (gatherk30_loop_invalid _ 0 (make 4) Hv) as [p Hp].
    exists p. apply gatherk30_of_panic.
    rewrite gatherk30_float_piece by assumption. now rewrite Hp.
  - intros Hv Hl.
    pose proof (gatherk30_float_valid prefix seg rest _ Hprefix Hseg Hrest
                  eq_refl Hv ltac:(lia)) as Hfl.
    destruct (Float32frombytes _) as [f|p] eqn:E in Hfl.
    + exists f. split; [exact E | now apply gatherk30_of_float].
    + exfalso. revert E.
      destruct (gobytes.Fields seg) as [|t0 [|t1 [|t2 [|t3 l]]]];
        cbn [length] in Hl; try lia;
        cbn [map length Nat.sub repeat app];
        rewrite Float32frombytes_value; discriminate.
Qed.

Lemma C2_malformed_input_witness :
  gatherk30 unconfigured (B "Characteristic value/descriptor") []
  = ([], Panic (IndexOutOfRange 1 1))
  /\ (exists p, gatherk30 unconfigured (B "x: 00 0g 80 3f") [] = ([], Panic p))
  /\ (exists f,
        Float32frombytes [Byte.x00; Byte.x00; Byte.x80; Byte.x00] = Ok f
        /\ gatherk30 unconfigured (B "x: 00 00 80") []
           = ([k30_point f], Ok None)).
Proof.
  pose (T := C2_malformed_input_panics_or_pads unconfigured []).
  split; [|split].
  - exact (proj1 (proj2 (proj2
      (T (B "Characteristic value/descriptor") [] [] [] eq_refl eq_refl eq_refl)))
      eq_refl).
  - exact (proj1 (proj2 (proj2 (proj2
      (T [] (B "x") (B " 00 0g 80 3f") [] eq_refl eq_refl eq_refl))))
      eq_refl).
  - exact (proj2 (proj2 (proj2 (proj2
      (T [] (B "x") (B " 00 00 80") [] eq_refl eq_refl eq_refl))))
      eq_refl ltac:(vm_compute; lia)).
Defined.

(** C2 fails on the code: without a colon and with a token that is not
    hexadecimal the call panics instead of returning an error, and with
    three tokens it goes on with partial data and adds a field. *)
Lemma C2_counterexample :
  gatherk30 unconfigured (B "Characteristic value/descriptor") []
  = ([], Panic (IndexOutOfRange 1 1))
  /\ gatherk30 unconfigured (B "x: 00 0g 80 3f") []
     = ([], Panic (PanicError (InvalidByteError Byte.x67)))
  /\ snd (gatherk30 unconfigured (B "x: 00 00 80") []) = Ok None
  /\ length (fst (gatherk30 unconfigured (B "x: 00 00 80") [])) = 1%nat.
Proof. vm_compute. repeat split. Qed.

(** ** Exactly four tokens *)

Lemma one32_value : math.Float32value one32 = Some 1%Q.
Proof. reflexivity. Qed.

Lemma gatttool_one_float : gatherk30_float gatttool_one = Ok one32.
Proof.
  change gatttool_one
    with (B "Characteristic value/descriptor" ++ colon
            :: B " 00 00 80 3f " ++ []).
  rewrite (gatherk30_float_valid _ _ _ [B "00"; B "00"; B "80"; B "3f"])
    by (reflexivity || (cbn; lia)).
  cbn [map length Nat.sub repeat app]. rewrite Float32frombytes_value.
  f_equal; now apply float32_ext.
Qed.

(** C3, as the code has it: when the first post-colon piece has exactly
    four tokens, each a non-empty, even-length run of hexadecimal digits,
    [gatherk30] takes the first decoded byte of each, in token order, and
    succeeds; the output of gatttool ending in [: 00 00 80 3f] yields the
    field co2 = 1.0. *)
Theorem C3_exactly_four_tokens
  (ns : K30) (acc : Accumulator) (prefix seg rest t0 t1 t2 t3 : bytes)
  (Hprefix : has_colon prefix = false) (Hseg : has_colon seg = false)
  (Hrest : ends_piece rest = true)
  (Hfields : gobytes.Fields seg = [t0; t1; t2; t3])
  (Hvalid : forallb valid_hex [t0; t1; t2; t3] = true) :
  (exists f,
      Float32frombytes [first_byte t0; first_byte t1; first_byte t2;
                        first_byte t3] = Ok f
      /\ gatherk30 ns (prefix ++ colon :: seg ++ rest) acc
         = (acc ++ [k30_point f], Ok None))
  /\ gatherk30 ns gatttool_one acc = (acc ++ [k30_point one32], Ok None)
  /\ fields (k30_point one32) !! "co2"%string = Some (VFloat32 one32)
  /\ math.Float32value one32 = Some 1%Q.
Proof.
  split; [|split; [|split]].
  - eexists. split; [apply Float32frombytes_value|].
    apply gatherk30_of_float.
    rewrite (gatherk30_float_valid prefix seg rest _ Hprefix Hseg Hrest
               Hfields Hvalid) by (cbn; lia).
    cbn [map length Nat.sub repeat app]. apply Float32frombytes_value.
  - apply gatherk30_of_float. apply gatttool_one_float.
  - reflexivity.
  - apply one32_value.
Qed.

Lemma C3_exactly_four_tokens_witness :
  exists f,
    Float32frombytes [Byte.xde; Byte.xad; Byte.xbe; Byte.xef] = Ok f
    /\ gatherk30 unconfigured (B "handle 0x000e: DE00 ad be EF01 :tail") []
       = ([k30_point f], Ok None).
Proof.
  exact (proj1 (C3_exactly_four_tokens unconfigured [] (B "handle 0x000e")
                  (B " DE00 ad be EF01 ") (B ":tail")
                  (B "DE00") (B "ad") (B "be") (B "EF01")
                  eq_refl eq_refl eq_refl eq_refl eq_refl)).
Defined.

(** C3 fails on the code: a fifth token is written to [reading[4]], which
    is out of range, so the call panics and no field is added. *)
Lemma C3_counterexample :
  gobytes.Fields (B " 00 00 80 3f 00")
  = [B "00"; B "00"; B "80"; B "3f"; B "00"]
  /\ gatherk30 unconfigured
       (B "Characteristic value/descriptor: 00 00 80 3f 00") []
     = ([], Panic (IndexOutOfRange 4 4)).
Proof. vm_compute. split; reflexivity. Qed.

(** ** The bounded executor *)

Lemma exe_cmd_no_token (w : world) (cmd : string) (wg : Z) :
  gostrings.Fields cmd = [] ->
  exe_cmd w cmd wg = mkExe wg exec.NotStarted (Panic (IndexOutOfRange 0 0)).
Proof. intros H. unfold exe_cmd. now rewrite H. Qed.

(** With a first token, [exe_cmd] runs it on the remaining tokens; the
    only panic left is the one of the wait group. *)
Lemma exe_cmd_token (w : world) (cmd head : string) (args : list string) (wg : Z) :
  gostrings.Fields cmd = head :: args ->
  let o := exec.Output (10 * Second) (spawn w head args) (latency w) in
  exe_cmd w cmd wg
  = match sync.Done wg with
    | Panic p => mkExe wg (exec.final o) (Panic p)
    | Ok wg' =>
        mkExe wg' (exec.final o)
              (Ok (if exec.deadline_exceeded o then [] else exec.out o,
                   exec.err o))
    end.
Proof.
  intros H o. unfold exe_cmd. rewrite H. cbn [index nth_error].
  change (drop 1 (head :: args)) with args. fold o. destruct (exec.deadline_exceeded o), (sync.Done wg); reflexivity.
Qed.

Lemma Done_cases (wg : Z) :
  sync.Done wg = Panic NegativeWaitGroup \/ exists wg', sync.Done wg = Ok wg'.
Proof.
  unfold sync.Done, sync.Add. destruct (_ <? _)%Z; eauto.
Qed.

(** C10: for the empty command string and for one of white space only,
    [exe_cmd] panics at [parts[0]] before anything is run, so a non-empty
    token list is a precondition; a command string with a token (the case
    as soon as it has an ASCII byte that is not white space) passes the
    indexing, and [exe_cmd] has no index panic. *)
Theorem C10_first_token_precondition (w : world) (cmd : string) (wg : Z) :
  (forall rs,
      list_byte_of_string cmd = white rs -> all_space rs = true ->
      exe_cmd w cmd wg = mkExe wg exec.NotStarted (Panic (IndexOutOfRange 0 0)))
  /\ (gostrings.Fields cmd = [] ->
      exe_cmd w cmd wg = mkExe wg exec.NotStarted (Panic (IndexOutOfRange 0 0)))
  /\ (forall pre c post,
        list_byte_of_string cmd = pre ++ c :: post ->
        (Byte.to_N c <? utf8.RuneSelf) = true ->
        gobytes.asciiSpace c = false ->
        gostrings.Fields cmd <> [])
  /\ (gostrings.Fields cmd <> [] ->
      forall i n, returned (exe_cmd w cmd wg) <> Panic (IndexOutOfRange i n)).
Proof.
  split; [|split; [|split]].
  - intros rs E H. apply exe_cmd_no_token. unfold gostrings.Fields.
    now rewrite E, Fields_all_space.
  - apply exe_cmd_no_token.
  - intros pre c post E Hc Hs. unfold gostrings.Fields. rewrite E.
    pose proof (Fields_has_token pre post c Hc Hs) as H.
    destruct (gobytes.Fields _); [easy | discriminate].
  - intros H i n. destruct (gostrings.Fields cmd) as [|head args] eqn:E; [easy|].
    rewrite (exe_cmd_token w cmd head args wg E).
    destruct (Done_cases wg) as [-> | [wg' ->]]; discriminate.
Qed.

Lemma C10_first_token_witness :
  exe_cmd (mkWorld ∅ no_program 0) "  " 1
  = mkExe 1 exec.NotStarted (Panic (IndexOutOfRange 0 0))
  /\ exe_cmd (mkWorld ∅ no_program 0) "" 1
     = mkExe 1 exec.NotStarted (Panic (IndexOutOfRange 0 0))
  /\ gostrings.Fields " gatttool -b" <> []
  /\ (forall i n,
        returned (exe_cmd (mkWorld ∅ no_program 0) " gatttool -b" 1)
        <> Panic (IndexOutOfRange i n)).
Proof.
  split; [|split; [|split]].
  - exact (proj1 (C10_first_token_precondition (mkWorld ∅ no_program 0) "  " 1)
             [0x20; 0x20] eq_refl eq_refl).
  - exact (proj1 (proj2 (C10_first_token_precondition
                           (mkWorld ∅ no_program 0) "" 1)) eq_refl).
  - exact (proj1 (proj2 (proj2 (C10_first_token_precondition
                                  (mkWorld ∅ no_program 0) " gatttool -b" 1)))
             [space] Byte.x67 (B "atttool -b") eq_refl eq_refl eq_refl).
  - exact (proj2 (proj2 (proj2 (C10_first_token_precondition
                                  (mkWorld ∅ no_program 0) " gatttool -b" 1)))
             ltac:(discriminate)).
Defined.

(** C5: when the child does not exit within the ten seconds of the
    context, [exe_cmd] returns an error and no output bytes, whatever the
    child had written, and the child has been killed. *)
Theorem C5_timeout_returns_error_without_output
  (w : world) (cmd head : string) (args : list string) (wg : Z)
  (duration : N) (stdout : N -> bytes) (exit : option error)
  (Htokens : gostrings.Fields cmd = head :: args)
  (Hchild : spawn w head args = exec.Runs duration stdout exit)
  (Hlate : 10 * Second < duration)
  (Hwg : (0 < wg)%Z) :
  exists e,
    exe_cmd w cmd wg = mkExe (wg - 1) exec.Killed (Ok ([], Some e)).
Proof.
  exists exec.killed.
  rewrite (exe_cmd_token w cmd head args wg Htokens). rewrite Hchild.
  unfold exec.Output.
  replace (duration <=? 10 * Second) with false
    by (symmetry; apply N.leb_gt; exact Hlate).
  cbn [exec.final exec.deadline_exceeded exec.err].
  unfold sync.Done, sync.Add.
  replace (wg + -1 <? 0)%Z with false by (symmetry; apply Z.ltb_ge; lia).
  reflexivity.
Qed.

Lemma C5_timeout_witness :
  exists e,
    exe_cmd (mkWorld ∅ (hangs (B "Characteristic")) 0)
            "/usr/bin/gatttool -b C1:C4:E4:05:14:95" 1
    = mkExe 0 exec.Killed (Ok ([], Some e)).
Proof.
  exact (C5_timeout_returns_error_without_output
           (mkWorld ∅ (hangs (B "Characteristic")) 0)
           "/usr/bin/gatttool -b C1:C4:E4:05:14:95" "/usr/bin/gatttool"
           ["-b"; "C1:C4:E4:05:14:95"]%string 1
           (3600 * Second) (fun _ => B "Characteristic") None
           eq_refl eq_refl eq_refl eq_refl).
Defined.

(** ** Parameter resolution *)

Lemma proc_ignores_path (environ : gmap string string) (env path path' : string) :
  proc environ env path = proc environ env path'.
Proof. reflexivity. Qed.

Lemma proc_nonempty (environ : gmap string string) (env path : string) :
  env <> EmptyString -> proc environ env path <> EmptyString.
Proof.
  intros H. unfold proc.
  destruct (String.eqb (os.Getenv environ env) "") eqn:E; cbn [negb].
  - exact H.
  - now apply String.eqb_neq in E.
Qed.

(** C8, as the code has it: a configured value that is not empty is
    returned unchanged; otherwise the value of the environment variable
    named [envName] when it is set and not empty; otherwise that name
    itself.  The built-in default plays no part in the result.
    [loadPath] resolves its four fields in this way, under the names
    GATTTOOL, MACADDR, VAR_HANDLE and GATTFLAGS and with the empty string
    in the place of the default. *)
Theorem C8_resolve_returns_env_name
  (environ : gmap string string) (configValue envName builtinDefault : string)
  (c : ascii) (explicit : string) :
  (envName <> EmptyString ->
   resolve environ configValue envName builtinDefault
   = if String.eqb configValue ""
     then match environ !! envName with
          | Some (String a v) => String a v
          | _ => envName
          end
     else configValue)
  /\ resolve (delete "ENVX"%string environ) "" "ENVX" "default" = "ENVX"%string
  /\ resolve environ (String c explicit) envName builtinDefault
     = String c explicit
  /\ (forall d, resolve environ configValue envName d
                = resolve environ configValue envName builtinDefault)
  /\ (forall ns,
        loadPath environ ns
        = mkK30 (resolve environ (CMD ns) GATT_TOOL "")
                (resolve environ (ADDR ns) MAC_ADDR "")
                (resolve environ (HANDLE ns) VAR_HANDLE "")
                (resolve environ (FLAGS ns) GATT_FLAGS "")
                (DumpZeros ns)).
Proof.
  split; [|split; [|split; [reflexivity|split; [reflexivity|]]]].
  - intros Hname. unfold resolve, proc, os.Getenv.
    destruct (String.eqb configValue ""); [|reflexivity].
    destruct envName as [|a0 name]; [easy|].
    destruct (environ !! String a0 name) as [[|a v]|]; reflexivity.
  - unfold resolve, proc, os.Getenv. cbn [String.eqb].
    now rewrite lookup_delete_eq.
  - intros [cmd addr handle flags dz]. unfold loadPath, resolve.
    cbn [CMD ADDR HANDLE FLAGS DumpZeros].
    destruct (String.eqb cmd ""); cbn [CMD ADDR HANDLE FLAGS DumpZeros];
      destruct (String.eqb addr ""); cbn [CMD ADDR HANDLE FLAGS DumpZeros];
      destruct (String.eqb handle ""); cbn [CMD ADDR HANDLE FLAGS DumpZeros];
      destruct (String.eqb flags ""); reflexivity.
Qed.

Lemma C8_resolve_witness :
  resolve env_a "" "GATTTOOL" "/usr/bin/gatttool" = "/opt/a/gatttool"%string
  /\ resolve env_a "" "MACADDR" "C1:C4:E4:05:14:95" = "MACADDR"%string.
Proof.
  split.
  - exact (proj1 (C8_resolve_returns_env_name env_a "" "GATTTOOL"
                    "/usr/bin/gatttool" "x"%char "")
             ltac:(discriminate)).
  - exact (proj1 (C8_resolve_returns_env_name env_a "" "MACADDR"
                    "C1:C4:E4:05:14:95" "x"%char "")
             ltac:(discriminate)).
Defined.

(** C8 fails on the code in its first equation: without a configured
    value and with the empty name the result is the empty string, not the
    default; and the collector without configuration in an empty
    environment starts the program GATTTOOL, not the built-in default
    /usr/bin/gatttool. *)
Lemma C8_counterexample :
  resolve ∅ "" "" "default" = ""%string
  /\ resolve ∅ "" "" "default" <> "default"%string
  /\ CMD (loadPath ∅ unconfigured) = "GATTTOOL"%string
  /\ CMD (loadPath ∅ unconfigured) <> GATTTOOL.
Proof.
  split; [reflexivity|]. split; [discriminate|].
  split; [reflexivity | discriminate].
Qed.

Lemma field_resolved (environ : gmap string string) (v env : string) :
  env <> EmptyString ->
  (if String.eqb v "" then proc environ env "" else v) <> EmptyString.
Proof.
  intros H. destruct (String.eqb v "") eqn:E.
  - now apply proc_nonempty.
  - now apply String.eqb_neq in E.
Qed.

Lemma loadPath_fields (environ : gmap string string) (ns : K30) :
  loadPath environ ns
  = mkK30 (if String.eqb (CMD ns) "" then proc environ GATT_TOOL "" else CMD ns)
          (if String.eqb (ADDR ns) "" then proc environ MAC_ADDR "" else ADDR ns)
          (if String.eqb (HANDLE ns) "" then proc environ VAR_HANDLE ""
           else HANDLE ns)
          (if String.eqb (FLAGS ns) "" then proc environ GATT_FLAGS ""
           else FLAGS ns)
          (DumpZeros ns).
Proof.
  destruct ns as [cmd addr handle flags dz]. unfold loadPath. cbn [CMD ADDR HANDLE FLAGS DumpZeros].
  destruct (String.eqb cmd ""); cbn [CMD ADDR HANDLE FLAGS DumpZeros];
    destruct (String.eqb addr ""); cbn [CMD ADDR HANDLE FLAGS DumpZeros];
    destruct (String.eqb handle ""); cbn [CMD ADDR HANDLE FLAGS DumpZeros];
    destruct (String.eqb flags ""); reflexivity.
Qed.

(** Once resolved, the fields are kept: a second [loadPath] changes
    nothing, whatever the environment. *)
Lemma loadPath_cached (environ environ' : gmap string string) (ns : K30) :
  loadPath environ' (loadPath environ ns) = loadPath environ ns.
Proof.
  rewrite (loadPath_fields environ ns).
  rewrite loadPath_fields. cbn [CMD ADDR HANDLE FLAGS DumpZeros].
  pose proof (field_resolved environ (CMD ns) GATT_TOOL ltac:(discriminate)) as H1.
  pose proof (field_resolved environ (ADDR ns) MAC_ADDR ltac:(discriminate)) as H2.
  pose proof (field_resolved environ (HANDLE ns) VAR_HANDLE ltac:(discriminate)) as H3.
  pose proof (field_resolved environ (FLAGS ns) GATT_FLAGS ltac:(discriminate)) as H4.
  apply String.eqb_neq in H1, H2, H3, H4. now rewrite H1, H2, H3, H4.
Qed.

Lemma Gather_eq (w : world) (ns : K30) (acc : Accumulator) :
  Gather w ns acc
  = let ns := loadPath (environ w) ns in
    match returned (exe_cmd w (built_cmd ns) 1) with
    | Panic p => mkGather ns acc (Panic p)
    | Ok (k30, Some err) => mkGather ns acc (Ok (Some err))
    | Ok (k30, None) =>
        mkGather ns (fst (gatherk30 ns k30 acc)) (snd (gatherk30 ns k30 acc))
    end.
Proof.
  unfold Gather. change (sync.Add 0 1) with (Ok (A:=Z) 1%Z).
  cbv beta iota zeta.
  destruct (returned _) as [[k30 [e|]]|p]; try reflexivity.
  destruct (gatherk30 _ _ _) as [acc' [[e|]|p]]; reflexivity.
Qed.

Lemma Gather_collector (w : world) (ns : K30) (acc : Accumulator) :
  collector (Gather w ns acc) = loadPath (environ w) ns.
Proof.
  rewrite Gather_eq. cbv zeta.
  destruct (returned _) as [[k30 [e|]]|p]; reflexivity.
Qed.

(** C9, as the code has it: [Gather] calls [loadPath] in every cycle, but
    [loadPath] resolves only the fields that are still empty and stores
    the result in the collector; after the first cycle no field is empty,
    so every later cycle runs with the values of the first one, whatever
    the environment has become. *)
Theorem C9_resolution_is_kept_after_first_cycle
  (w1 w2 : world) (ns : K30) (acc1 acc2 : Accumulator) :
  let c1 := collector (Gather w1 ns acc1) in
  c1 = loadPath (environ w1) ns
  /\ loadPath (environ w2) c1 = c1
  /\ collector (Gather w2 c1 acc2) = c1
  /\ CMD c1 <> EmptyString /\ ADDR c1 <> EmptyString
  /\ HANDLE c1 <> EmptyString /\ FLAGS c1 <> EmptyString.
Proof.
  intros c1. subst c1. rewrite !Gather_collector, loadPath_cached.
  repeat split; try reflexivity;
    rewrite loadPath_fields; cbn [CMD ADDR HANDLE FLAGS];
    apply field_resolved; discriminate.
Qed.

(** C9 fails on the code: with [GATTTOOL] changed between two cycles, the
    second cycle still starts the program the first one resolved. *)
Lemma C9_counterexample :
  CMD (loadPath env_b unconfigured) = "/opt/b/gatttool"%string
  /\ CMD (collector first_cycle) = "/opt/a/gatttool"%string
  /\ CMD (collector second_cycle) = "/opt/a/gatttool"%string
  /\ ret second_cycle = Ok (Some (ExternalError "/opt/a/gatttool")).
Proof. vm_compute. repeat split. Qed.

(** ** No field without success: the K30 cycle *)



(** ** The battery reader *)

Lemma index_last {A : Type} (l : list A) (x : A) :
  last l = Some x -> index l (length l - 1) = Ok x.
Proof.
  induction l as [|a l IH]; [discriminate|].
  destruct l as [|b l].
  - cbn. now intros [= ->].
  - rewrite last_cons_cons. intros H. specialize (IH H).
    unfold index in *. cbn [length Nat.sub] in *.
    rewrite Nat.sub_0_r in *. cbn [nth_error].
    destruct (nth_error (b :: l) (length l)); [|discriminate].
    now injection IH as ->.
Qed.

Lemma Split_last (f sep : string) :
  exists x, last (gostrings.Split f sep) = Some x.
Proof.
  unfold gostrings.Split, gobytes.Split.
  pose proof (split_loop_nonempty (list_byte_of_string sep)
                (list_byte_of_string f) 0 []) as H.
  destruct (gobytes.split_loop _ _ _ _) as [|a l] using rev_ind; [easy|].
  rewrite map_app. cbn [map]. rewrite last_snoc. eauto.
Qed.

Lemma index_last_segment (f : string) :
  index (gostrings.Split f "/") (length (gostrings.Split f "/") - 1)
  = Ok (last_segment f).
Proof.
  unfold last_segment. destruct (Split_last f "/") as [x Hx].
  rewrite Hx. now apply index_last.
Qed.

Section Battery.

Variable ReadFile : string -> bytes * option error.
Variable ParseFloat : string -> N -> float * option error.

Let Gather_loop := pine_64.Gather_loop ReadFile ParseFloat.
Let Gather := pine_64.Gather ReadFile ParseFloat.

Lemma Gather_loop_read_error f paths metrics printed b e :
  ReadFile f = (b, Some e) ->
  Gather_loop (f :: paths) metrics printed = (printed, Ok (inl e)).
Proof.
  intros H. unfold Gather_loop. cbn [pine_64.Gather_loop]. now rewrite H.
Qed.

Lemma Gather_loop_string f paths metrics printed b :
  ReadFile f = (b, None) -> is_string_stat (last_segment f) = true ->
  Gather_loop (f :: paths) metrics printed
  = Gather_loop paths
      (<[last_segment f := VString (string_of_list_byte b)]> metrics) printed.
Proof.
  intros H Hs. unfold Gather_loop. cbn [pine_64.Gather_loop].
  rewrite H, index_last_segment. unfold is_string_stat in Hs. now rewrite Hs.
Qed.

Lemma Gather_loop_parse_error f paths metrics printed b v e :
  ReadFile f = (b, None) -> is_string_stat (last_segment f) = false ->
  ParseFloat (gostrings.Trim (string_of_list_byte b) LF) 64 = (v, Some e) ->
  Gather_loop (f :: paths) metrics printed = (printed, Ok (inl e)).
Proof.
  intros H Hs Hp. unfold Gather_loop. cbn [pine_64.Gather_loop].
  rewrite H, index_last_segment. unfold is_string_stat in Hs.
  now rewrite Hs, Hp.
Qed.

Lemma Gather_loop_number f paths metrics printed b v :
  ReadFile f = (b, None) -> is_string_stat (last_segment f) = false ->
  ParseFloat (gostrings.Trim (string_of_list_byte b) LF) 64 = (v, None) ->
  Gather_loop (f :: paths) metrics printed
  = let v' := if String.eqb (last_segment f) "voltage_now"
              then ((v / 10000) * 0.01)%float else v in
    Gather_loop paths (<[last_segment f := VFloat64 v']> metrics)
                (printed ++ [(last_segment f, v')]).
Proof.
  intros H Hs Hp. unfold Gather_loop. cbn [pine_64.Gather_loop].
  rewrite H, index_last_segment. unfold is_string_stat in Hs.
  now rewrite Hs, Hp.
Qed.



(** A cycle over five files named status, voltage_now, current_now,
    capacity and health that all read and parse. *)
Lemma Batt_Gather_standard ns acc bs bv bc bp bh v c p :
  map last_segment (pine_64.struct_fields ns)
  = ["status"; "voltage_now"; "current_now"; "capacity"; "health"]%string ->
  ReadFile (pine_64.BATSTAT ns) = (bs, None) ->
  ReadFile (pine_64.BATVOLT ns) = (bv, None) ->
  ReadFile (pine_64.BATCUR ns) = (bc, None) ->
  ReadFile (pine_64.BATCAP ns) = (bp, None) ->
  ReadFile (pine_64.BATHEAL ns) = (bh, None) ->
  ParseFloat (gostrings.Trim (string_of_list_byte bv) LF) 64 = (v, None) ->
  ParseFloat (gostrings.Trim (string_of_list_byte bc) LF) 64 = (c, None) ->
  ParseFloat (gostrings.Trim (string_of_list_byte bp) LF) 64 = (p, None) ->
  let volts := ((v / 10000) * 0.01)%float in
  Gather ns acc
  = pine_64.mkGather
      (acc ++ [battery_point
                 (<["health"%string := VString (string_of_list_byte bh)]>
                    (<["capacity"%string := VFloat64 p]>
                       (<["current_now"%string := VFloat64 c]>
                          (<["voltage_now"%string := VFloat64 volts]>
                             (<["status"%string := VString (string_of_list_byte bs)]> ∅)))))])
      [("voltage_now", volts); ("current_now", c); ("capacity", p)]%string
      (Ok None).
Proof.
  intros Hn Hs Hv Hc Hp Hh Pv Pc Pp volts.
  cbn [pine_64.struct_fields map] in Hn.
  injection Hn as N1 N2 N3 N4 N5.
  unfold Gather, pine_64.Gather, pine_64.struct_fields.
  fold Gather_loop.
  rewrite (Gather_loop_string _ _ _ _ _ Hs) by now rewrite N1.
  rewrite (Gather_loop_number _ _ _ _ _ _ Hv) by (now rewrite N2 || exact Pv).
  rewrite (Gather_loop_number _ _ _ _ _ _ Hc) by (now rewrite N3 || exact Pc).
  rewrite (Gather_loop_number _ _ _ _ _ _ Hp) by (now rewrite N4 || exact Pp).
  rewrite (Gather_loop_string _ _ _ _ _ Hh) by now rewrite N5.
  rewrite N1, N2, N3, N4, N5. reflexivity.
Qed.

End Battery.





(** C6 on the code: the content of the status and health files is stored
    as read, with its trailing line feed; only numbers are trimmed before
    they are parsed.  The capacity file ["87\n"] yields 87.0. *)
Theorem C6_status_stored_untrimmed :
  exists m,
    pine_64.Gather sysfs ParseFloat_digits default_batt []
    = pine_64.mkGather [battery_point m]
        [("voltage_now", 4%float); ("current_now", 1200000%float);
         ("capacity", 87%float)]%string (Ok None)
    /\ m !! "status"%string = Some (VString ("Charging" +:+ LF))
    /\ m !! "health"%string = Some (VString ("Good" +:+ LF))
    /\ m !! "capacity"%string = Some (VFloat64 87%float)
    /\ ("Charging" +:+ LF)%string <> "Charging"%string.
Proof.
  eexists. split; [|split; [|split; [|split]]].
  - vm_compute. reflexivity.
  - vm_compute. reflexivity.
  - vm_compute. reflexivity.
  - vm_compute. reflexivity.
  - discriminate.
Qed.

(** C7: in a cycle over files named status, voltage_now, current_now,
    capacity and health, the number parsed from voltage_now is stored as
    [(v / 10000) * 0.01] and the numbers parsed from current_now and
    capacity are stored as parsed; the raw voltage 4000000 becomes 4.0. *)
Theorem C7_voltage_conversion
  (ReadFile : string -> bytes * option error)
  (ParseFloat : string -> N -> float * option error)
  (ns : pine_64.Batt) (acc : Accumulator) (bs bv bc bp bh : bytes)
  (v c p : float)
  (Hnames : map last_segment (pine_64.struct_fields ns)
            = ["status"; "voltage_now"; "current_now"; "capacity"; "health"]%string)
  (Hstatus : ReadFile (pine_64.BATSTAT ns) = (bs, None))
  (Hvoltage : ReadFile (pine_64.BATVOLT ns) = (bv, None))
  (Hcurrent : ReadFile (pine_64.BATCUR ns) = (bc, None))
  (Hcapacity : ReadFile (pine_64.BATCAP ns) = (bp, None))
  (Hhealth : ReadFile (pine_64.BATHEAL ns) = (bh, None))
  (Pvoltage : ParseFloat (gostrings.Trim (string_of_list_byte bv) LF) 64 = (v, None))
  (Pcurrent : ParseFloat (gostrings.Trim (string_of_list_byte bc) LF) 64 = (c, None))
  (Pcapacity : ParseFloat (gostrings.Trim (string_of_list_byte bp) LF) 64 = (p, None)) :
  (exists m,
      pine_64.Gather ReadFile ParseFloat ns acc
      = pine_64.mkGather (acc ++ [battery_point m])
          [("voltage_now", ((v / 10000) * 0.01)%float); ("current_now", c);
           ("capacity", p)]%string (Ok None)
      /\ m !! "voltage_now"%string = Some (VFloat64 ((v / 10000) * 0.01)%float)
      /\ m !! "current_now"%string = Some (VFloat64 c)
      /\ m !! "capacity"%string = Some (VFloat64 p))
  /\ ((4000000 / 10000) * 0.01 = 4)%float.
Proof.
  split; [|reflexivity].
  eexists. split.
  - apply (Batt_Gather_standard ReadFile ParseFloat ns acc bs bv bc bp bh v c p);
      assumption.
  - split; [|split].
    + rewrite !lookup_insert_ne by discriminate. apply lookup_insert_eq.
    + rewrite !lookup_insert_ne by discriminate. apply lookup_insert_eq.
    + rewrite !lookup_insert_ne by discriminate. apply lookup_insert_eq.
Qed.

Lemma C7_voltage_conversion_witness :
  exists m,
    pine_64.Gather sysfs ParseFloat_digits default_batt []
    = pine_64.mkGather ([] ++ [battery_point m])
        [("voltage_now", ((4000000 / 10000) * 0.01)%float);
         ("current_now", 1200000%float); ("capacity", 87%float)]%string
        (Ok None)
    /\ m !! "voltage_now"%string
       = Some (VFloat64 ((4000000 / 10000) * 0.01)%float)
    /\ m !! "current_now"%string = Some (VFloat64 1200000%float)
    /\ m !! "capacity"%string = Some (VFloat64 87%float).
Proof.
  exact (proj1 (C7_voltage_conversion sysfs ParseFloat_digits default_batt []
                  (B ("Charging" +:+ LF)) (B ("4000000" +:+ LF))
                  (B ("1200000" +:+ LF)) (B ("87" +:+ LF)) (B ("Good" +:+ LF))
                  4000000%float 1200000%float 87%float
                  eq_refl eq_refl eq_refl eq_refl eq_refl eq_refl
                  eq_refl eq_refl eq_refl)).
Defined.


(** * Further properties *)

Import Props.

(** ** The two conversions between floats and bytes *)

Lemma Float32frombytes_le (f : math.float32) :
  Float32frombytes (le_bytes (math.f32_bits f)) = Ok f.
Proof.
  unfold Float32frombytes. rewrite le_value_bytes by apply f32_bits_lt.
  cbn [rbind]. f_equal. apply Float32frombits_bits.
Qed.

(** [Float32frombytes] and [Float32bytes] are inverse to each other
    between slices of four bytes and floats: decoding four bytes and
    encoding the float gives the four bytes back, and encoding a float
    gives four bytes that decode to it. *)
Theorem Float32_bytes_inverse :
  (forall b0 b1 b2 b3 : byte,
      exists f, Float32frombytes [b0; b1; b2; b3] = Ok f
                /\ Float32bytes f = Ok [b0; b1; b2; b3])
  /\ (forall f : math.float32,
        exists b0 b1 b2 b3,
          Float32bytes f = Ok [b0; b1; b2; b3]
          /\ Float32frombytes [b0; b1; b2; b3] = Ok f).
Proof.
  split.
  - intros b0 b1 b2 b3. eexists. split.
    + apply Float32frombytes_value.
    + apply Float32bytes_frombits_value.
  - intros f. do 4 eexists. split.
    + apply Float32bytes_le.
    + apply (Float32frombytes_le f).
Qed.

(** [Float32frombytes] panics on a slice of fewer than four bytes, at the
    bounds check of index 3, and looks at no byte after the fourth. *)
Theorem Float32frombytes_bounds (bs : bytes) (Hshort : (length bs < 4)%nat) :
  Float32frombytes bs = Panic (IndexOutOfRange 3 (length bs))
  /\ (forall b0 b1 b2 b3 more,
        Float32frombytes (b0 :: b1 :: b2 :: b3 :: more)
        = Float32frombytes [b0; b1; b2; b3]).
Proof.
  split; [|reflexivity].
  destruct bs as [|b0 [|b1 [|b2 [|b3 bs]]]]; cbn [length] in Hshort;
    try lia; reflexivity.
Qed.

Lemma Float32frombytes_bounds_witness :
  Float32frombytes [Byte.x00; Byte.x80; Byte.x3f]
  = Panic (IndexOutOfRange 3 3)
  /\ (forall b0 b1 b2 b3 more,
        Float32frombytes (b0 :: b1 :: b2 :: b3 :: more)
        = Float32frombytes [b0; b1; b2; b3]).
Proof.
  exact (Float32frombytes_bounds [Byte.x00; Byte.x80; Byte.x3f]
           ltac:(cbn; lia)).
Defined.

(** ** What the decoder looks at *)

Lemma gatherk30_float_only (ns ns' : K30) (data data' : bytes) (acc : Accumulator) :
  gatherk30_float data = gatherk30_float data' ->
  gatherk30 ns data acc = gatherk30 ns' data' acc.
Proof. intros H. unfold gatherk30. now rewrite H. Qed.

(** [gatherk30] decodes the piece between the first and the second colon
    and nothing else: what stands before the first colon, what follows a
    second colon, and the collector make no difference. *)
Theorem gatherk30_decodes_second_piece_only
  (ns ns' : K30) (acc : Accumulator) (prefix prefix' seg rest : bytes)
  (Hprefix : has_colon prefix = false) (Hprefix' : has_colon prefix' = false)
  (Hseg : has_colon seg = false) :
  gatherk30 ns (prefix ++ colon :: seg ++ colon :: rest) acc
  = gatherk30 ns' (prefix' ++ colon :: seg) acc.
Proof.
  apply gatherk30_float_only.
  rewrite (gatherk30_float_piece prefix seg (colon :: rest) Hprefix Hseg)
    by (cbn [ends_piece]; apply byte_eqb_refl).
  rewrite <- (app_nil_r seg) at 2.
  now rewrite (gatherk30_float_piece prefix' seg [] Hprefix' Hseg eq_refl).
Qed.

Lemma gatherk30_decodes_second_piece_only_witness :
  gatherk30 unconfigured (B "handle: 00 00 80 3f : 01 02 03 04 05") []
  = gatherk30 unconfigured (B "x: 00 00 80 3f ") [].
Proof.
  exact (gatherk30_decodes_second_piece_only unconfigured unconfigured []
           (B "handle") (B "x") (B " 00 00 80 3f ") (B " 01 02 03 04 05")
           eq_refl eq_refl eq_refl).
Defined.

Lemma gatherk30_loop_panic_app (l1 l2 : list bytes) (x : nat) (reading : bytes)
  (p : panic) :
  gatherk30_loop l1 x reading = Panic p ->
  gatherk30_loop (l1 ++ l2) x reading = Panic p.
Proof.
  revert x reading. induction l1 as [|t l1 IH]; intros x reading H.
  - discriminate.
  - cbn [app gatherk30_loop] in *.
    destruct (hex.DecodeString _) as [data [e|]]; [exact H|].
    destruct (index data 0) as [d0|q]; cbn [rbind] in *; [|exact H].
    destruct (store reading x d0) as [r|q]; cbn [rbind] in *; [|exact H].
    now apply IH.
Qed.

(** A piece with more than four tokens, the first five of them valid,
    makes [gatherk30] panic at [reading[4]]; no field is added. *)
Theorem gatherk30_fifth_token_panics
  (ns : K30) (acc : Accumulator) (prefix seg rest : bytes)
  (Hprefix : has_colon prefix = false) (Hseg : has_colon seg = false)
  (Hrest : ends_piece rest = true)
  (Hmore : (4 < length (gobytes.Fields seg))%nat)
  (Hvalid : forallb valid_hex (take 5 (gobytes.Fields seg)) = true) :
  gatherk30 ns (prefix ++ colon :: seg ++ rest) acc
  = (acc, Panic (IndexOutOfRange 4 4)).
Proof.
  apply gatherk30_of_panic.
  rewrite gatherk30_float_piece by assumption.
  rewrite <- (take_drop 5 (gobytes.Fields seg)).
  rewrite (gatherk30_loop_panic_app _ _ 0 (make 4) (IndexOutOfRange 4 4));
    [reflexivity|].
  apply (gatherk30_loop_overflow _ 0 (make 4) Hvalid).
  rewrite length_take. cbn [make repeat length]. lia.
Qed.

Lemma gatherk30_fifth_token_panics_witness :
  gatherk30 unconfigured (B "x: 00 00 80 3f 00 zz") []
  = ([], Panic (IndexOutOfRange 4 4)).
Proof.
  exact (gatherk30_fifth_token_panics unconfigured [] (B "x")
           (B " 00 00 80 3f 00 zz") [] eq_refl eq_refl eq_refl
           ltac:(vm_compute; lia) eq_refl).
Defined.

(** ** Fields of a concatenation *)

Ltac destr_if :=
  match goal with
  | |- context [if ?b then _ else _] => destruct b eqn:?
  end.

Lemma DecodeRune_size_le (p : bytes) :
  (snd (utf8.DecodeRune p) <= length p)%nat.
Proof.
  unfold utf8.DecodeRune.
  destruct p as [|c0 [|c1 [|c2 [|c3 p]]]]; cbn [length];
    repeat (destruct (utf8.acceptRanges _) as [lo hi] || destr_if);
    cbn [snd]; lia.
Qed.

Lemma first_size (p0 : N) : (N.to_nat (N.land (utf8.first p0) 7) <= 4)%nat.
Proof.
  unfold utf8.first. repeat destr_if; vm_compute; lia.
Qed.

(** A space after the input does not change the rune at its head. *)
Lemma DecodeRune_space_after (c : byte) (a b : bytes) :
  utf8.DecodeRune (c :: a ++ space :: b) = utf8.DecodeRune (c :: a).
Proof.
  unfold utf8.DecodeRune.
  destruct (0xF0 <=? utf8.first (Byte.to_N c)); [reflexivity|].
  pose proof (acceptRanges_lo (N.shiftr (utf8.first (Byte.to_N c)) 4)) as Hlo.
  destruct (utf8.acceptRanges _) as [lo hi]. cbn [fst] in Hlo.
  pose proof (first_size (Byte.to_N c)) as Hsz.
  set (sz := N.to_nat _) in *.
  destruct a as [|c1 [|c2 [|c3 a]]]; cbn [app length];
    change (Byte.to_N space) with 32;
    repeat destr_if; try reflexivity; exfalso;
    repeat match goal with
           | H : (_ <? _)%nat = true |- _ => apply Nat.ltb_lt in H
           | H : (_ <? _)%nat = false |- _ => apply Nat.ltb_ge in H
           | H : (_ <=? _)%nat = true |- _ => apply Nat.leb_le in H
           | H : (_ <=? _)%nat = false |- _ => apply Nat.leb_gt in H
           | H : (_ || _) = false |- _ => apply orb_false_iff in H as [? ?]
           | H : (_ <? _) = false |- _ => apply N.ltb_ge in H
           | H : negb _ = false |- _ => apply negb_false_iff in H
           | H : utf8.cont 32 = true |- _ => discriminate H
           end;
    repeat match goal with
           | H : context [length (_ ++ _)] |- _ => rewrite length_app in H
           end;
    cbn [length] in *; lia.
Qed.

Lemma fieldsFunc_app_space (fuel : nat) (a b cur : bytes) :
  (length (a ++ space :: b) <= fuel)%nat ->
  gobytes.fieldsFunc_loop fuel unicode.IsSpace (a ++ space :: b) cur
  = gobytes.fieldsFunc_loop fuel unicode.IsSpace a cur
    ++ gobytes.fieldsFunc_loop (length b) unicode.IsSpace b [].
Proof.
  revert a cur. induction fuel as [|fuel IH]; intros a cur Hl.
  - rewrite length_app in Hl. cbn [length] in Hl. lia.
  - destruct a as [|c a].
    + cbn [app length] in *. cbn [gobytes.fieldsFunc_loop].
      change (utf8.RuneSelf <=? Byte.to_N space) with false.
      change (unicode.IsSpace (Byte.to_N space)) with true.
      cbn [drop]. f_equal. apply fieldsFunc_fuel; lia.
    + cbn [app length] in Hl. rewrite length_app in Hl. cbn [length] in Hl.
      cbn [app gobytes.fieldsFunc_loop].
      rewrite DecodeRune_space_after.
      pose proof (head_rune_width c a) as H1.
      assert (H2 : (snd (if (utf8.RuneSelf <=? Byte.to_N c)%N
                         then utf8.DecodeRune (c :: a)
                         else (Byte.to_N c, 1)) <= length (c :: a))%nat).
      { destruct (utf8.RuneSelf <=? Byte.to_N c);
          [apply DecodeRune_size_le | cbn; lia]. }
      destruct (if utf8.RuneSelf <=? Byte.to_N c then _ else _) as [r size].
      cbn [snd] in H1, H2.
      change (c :: a ++ space :: b) with ((c :: a) ++ space :: b).
      rewrite drop_app_le, take_app_le by exact H2.
      assert (Hd : (length (drop size (c :: a) ++ space :: b) <= fuel)%nat).
      { rewrite length_app, length_drop. cbn [length] in *. lia. }
      destruct (unicode.IsSpace r).
      * rewrite (IH _ _ Hd). now rewrite app_assoc.
      * now rewrite (IH _ _ Hd).
Qed.

(** The fields of two inputs joined by a space are the fields of the one
    followed by the fields of the other, whatever bytes they hold. *)
Lemma Fields_app_space (a b : bytes) :
  gobytes.Fields (a ++ space :: b) = gobytes.Fields a ++ gobytes.Fields b.
Proof.
  rewrite !Fields_FieldsFunc.
  rewrite fieldsFunc_app_space by lia. f_equal.
  apply fieldsFunc_fuel; rewrite ?length_app; lia.
Qed.

Lemma list_byte_of_string_app (a b : string) :
  list_byte_of_string (a +:+ b)
  = list_byte_of_string a ++ list_byte_of_string b.
Proof.
  unfold list_byte_of_string. rewrite <- map_app. f_equal.
  induction a as [|c a IH]; [reflexivity|].
  change (String c a +:+ b) with (String c (a +:+ b)).
  cbn [list_ascii_of_string app]. now rewrite IH.
Qed.

Lemma strings_Fields_app_space (a b : string) :
  gostrings.Fields (a +:+ " " +:+ b)
  = gostrings.Fields a ++ gostrings.Fields b.
Proof.
  unfold gostrings.Fields. rewrite list_byte_of_string_app.
  change (list_byte_of_string (" " +:+ b))
    with (space :: list_byte_of_string b).
  now rewrite Fields_app_space, map_app.
Qed.

(** ** The command line of a K30 cycle *)

Lemma built_cmd_Fields (ns : K30) :
  gostrings.Fields (built_cmd ns)
  = gostrings.Fields (CMD ns)
    ++ "-b"%string :: gostrings.Fields (ADDR ns)
    ++ gostrings.Fields (FLAGS ns)
    ++ gostrings.Fields ("--handle=" +:+ HANDLE ns).
Proof.
  unfold built_cmd.
  change (CMD ns +:+ " -b " +:+ ADDR ns +:+ " " +:+ FLAGS ns
            +:+ " --handle=" +:+ HANDLE ns)
    with (CMD ns +:+ " " +:+ ("-b" +:+ " " +:+ (ADDR ns +:+ " "
            +:+ (FLAGS ns +:+ " " +:+ ("--handle=" +:+ HANDLE ns))))).
  now rewrite !strings_Fields_app_space.
Qed.

Lemma built_cmd_has_token (ns : K30) : gostrings.Fields (built_cmd ns) <> [].
Proof. rewrite built_cmd_Fields. apply app_nonempty_r. discriminate. Qed.

(** The command line is split at white space without any quoting: its
    tokens are the tokens of the executable, then [-b], the tokens of the
    address, the tokens of the flags and the tokens of [--handle=] with the
    handle.  So there always is a first token, and a configured value with
    a space in it is split. *)
Theorem built_cmd_tokens (ns : K30) :
  gostrings.Fields (built_cmd ns)
  = gostrings.Fields (CMD ns)
    ++ "-b"%string :: gostrings.Fields (ADDR ns)
    ++ gostrings.Fields (FLAGS ns)
    ++ gostrings.Fields ("--handle=" +:+ HANDLE ns)
  /\ gostrings.Fields (built_cmd ns) <> [].
Proof. split; [apply built_cmd_Fields | apply built_cmd_has_token]. Qed.

(** ** The bounded executor, further *)

Lemma exe_cmd_in_time
  (w : world) (cmd head : string) (args : list string) (wg : Z)
  (duration : N) (stdout : N -> bytes) (exit : option error) :
  gostrings.Fields cmd = head :: args ->
  spawn w head args = exec.Runs duration stdout exit ->
  duration + latency w < 10 * Second ->
  (0 < wg)%Z ->
  exe_cmd w cmd wg
  = mkExe (wg - 1) exec.Exited (Ok (stdout duration, exit)).
Proof.
  intros Htokens Hchild Hintime Hwg.
  rewrite (exe_cmd_token w cmd head args wg Htokens). rewrite Hchild.
  unfold exec.Output.
  replace (duration <=? 10 * Second) with true
    by (symmetry; apply N.leb_le; lia).
  cbn [exec.final exec.deadline_exceeded exec.err exec.out].
  replace (10 * Second <=? duration + latency w) with false
    by (symmetry; apply N.leb_gt; exact Hintime).
  unfold sync.Done, sync.Add.
  replace (wg + -1 <? 0)%Z with false by (symmetry; apply Z.ltb_ge; lia).
  reflexivity.
Qed.

(** A child that exits on its own, early enough for the deadline not to
    have passed when [exe_cmd] looks at the context, has its standard
    output and its exit error returned as they are, and the wait group is
    decremented once. *)
Theorem exe_cmd_returns_child_output
  (w : world) (cmd head : string) (args : list string) (wg : Z)
  (duration : N) (stdout : N -> bytes) (exit : option error)
  (Htokens : gostrings.Fields cmd = head :: args)
  (Hchild : spawn w head args = exec.Runs duration stdout exit)
  (Hintime : duration + latency w < 10 * Second)
  (Hwg : (0 < wg)%Z) :
  exe_cmd w cmd wg
  = mkExe (wg - 1) exec.Exited (Ok (stdout duration, exit)).
Proof. now apply (exe_cmd_in_time w cmd head args). Qed.

Lemma exe_cmd_returns_child_output_witness :
  exe_cmd (mkWorld ∅ (prints gatttool_one) 0) "gatttool --char-read" 1
  = mkExe 0 exec.Exited (Ok (gatttool_one, None)).
Proof.
  exact (exe_cmd_returns_child_output
           (mkWorld ∅ (prints gatttool_one) 0) "gatttool --char-read"
           "gatttool" ["--char-read"%string] 1
           1000000 (fun _ => gatttool_one) None
           eq_refl eq_refl eq_refl eq_refl).
Defined.

(** Whenever [exe_cmd] returns, it has called [Done] exactly once, on a
    wait group whose counter was positive; on a wait group whose counter is
    not positive it panics, and it does so only after the command has
    run. *)
Theorem exe_cmd_wait_group (w : world) (cmd : string) (wg : Z) :
  (forall r, returned (exe_cmd w cmd wg) = Ok r ->
             (0 < wg)%Z /\ wg_after (exe_cmd w cmd wg) = (wg - 1)%Z)
  /\ (forall head args,
        gostrings.Fields cmd = head :: args -> (wg <= 0)%Z ->
        exe_cmd w cmd wg
        = mkExe wg (exec.final (exec.Output (10 * Second) (spawn w head args)
                                            (latency w)))
                (Panic NegativeWaitGroup)).
Proof.
  split.
  - intros r. destruct (gostrings.Fields cmd) as [|head args] eqn:E.
    + now rewrite (exe_cmd_no_token w cmd wg E).
    + rewrite (exe_cmd_token w cmd head args wg E).
      unfold sync.Done, sync.Add.
      destruct (wg + -1 <? 0)%Z eqn:Hd; [discriminate|].
      apply Z.ltb_ge in Hd. intros _. cbn [wg_after]. lia.
  - intros head args E Hwg. rewrite (exe_cmd_token w cmd head args wg E).
    unfold sync.Done, sync.Add.
    replace (wg + -1 <? 0)%Z with true by (symmetry; apply Z.ltb_lt; lia).
    reflexivity.
Qed.

Lemma exe_cmd_wait_group_witness :
  ((0 < 1)%Z
   /\ wg_after (exe_cmd (mkWorld ∅ (prints gatttool_one) 0) "gatttool" 1)
      = (1 - 1)%Z)
  /\ exe_cmd (mkWorld ∅ (prints gatttool_one) 0) "gatttool" 0
     = mkExe 0 exec.Exited (Panic NegativeWaitGroup).
Proof.
  split.
  - exact (proj1 (exe_cmd_wait_group (mkWorld ∅ (prints gatttool_one) 0)
                    "gatttool" 1) (gatttool_one, None) eq_refl).
  - exact (proj2 (exe_cmd_wait_group (mkWorld ∅ (prints gatttool_one) 0)
                    "gatttool" 0) "gatttool" [] eq_refl ltac:(lia)).
Defined.

Lemma gatherk30_float_nil : gatherk30_float [] = Panic (IndexOutOfRange 1 1).
Proof. reflexivity. Qed.

(** What a cycle does with a command whose first token is [head] once
    [exe_cmd] has found the deadline passed. *)
Lemma Gather_deadline_passed
  (w : world) (ns : K30) (acc : Accumulator) (head : string)
  (args : list string) :
  gostrings.Fields (built_cmd (loadPath (environ w) ns)) = head :: args ->
  exec.deadline_exceeded
    (exec.Output (10 * Second) (spawn w head args) (latency w)) = true ->
  exe_cmd w (built_cmd (loadPath (environ w) ns)) 1
  = mkExe 0
      (exec.final (exec.Output (10 * Second) (spawn w head args) (latency w)))
      (Ok ([], exec.err (exec.Output (10 * Second) (spawn w head args)
                                     (latency w))))
  /\ Gather w ns acc
     = mkGather (loadPath (environ w) ns) acc
         match exec.err (exec.Output (10 * Second) (spawn w head args)
                                     (latency w)) with
         | Some e => Ok (Some e)
         | None => Panic (IndexOutOfRange 1 1)
         end.
Proof.
  intros Htokens Hlate.
  assert (H : exe_cmd w (built_cmd (loadPath (environ w) ns)) 1
              = mkExe 0
                  (exec.final (exec.Output (10 * Second) (spawn w head args)
                                           (latency w)))
                  (Ok ([], exec.err (exec.Output (10 * Second)
                                       (spawn w head args) (latency w))))).
  { rewrite (exe_cmd_token w _ head args 1 Htokens). now rewrite Hlate. }
  split; [exact H|].
  rewrite Gather_eq. cbv zeta. rewrite H. cbn [returned].
  destruct (exec.err _) as [e|]; [reflexivity|].
  now rewrite (gatherk30_of_panic _ [] acc _ gatherk30_float_nil).
Qed.

(** When [exe_cmd] finds the deadline passed, it drops the output and hands
    on the error of [Output] alone; the cycle returns that error, and
    where it is nil the cycle panics in the decoder, which is given no
    bytes.  So the output of a child that exited successfully within the
    ten seconds is lost in each of these cases: [Output] had returned
    before the deadline and the deadline passed before the look at the
    context (panic); the deadline passed between the exit of the child and
    its collection, and the library reports the error of the context (that
    error is returned) or does not (panic).  No field is added. *)
Theorem late_deadline_check_drops_output
  (w : world) (ns : K30) (acc : Accumulator) (head : string)
  (args : list string)
  (Htokens : gostrings.Fields (built_cmd (loadPath (environ w) ns))
             = head :: args) :
  (exec.deadline_exceeded
     (exec.Output (10 * Second) (spawn w head args) (latency w)) = true ->
   returned (exe_cmd w (built_cmd (loadPath (environ w) ns)) 1)
   = Ok ([], exec.err (exec.Output (10 * Second) (spawn w head args)
                                   (latency w)))
   /\ Gather w ns acc
      = mkGather (loadPath (environ w) ns) acc
          match exec.err (exec.Output (10 * Second) (spawn w head args)
                                      (latency w)) with
          | Some e => Ok (Some e)
          | None => Panic (IndexOutOfRange 1 1)
          end)
  /\ (forall duration stdout,
        spawn w head args = exec.Runs duration stdout None ->
        duration <= 10 * Second -> 10 * Second <= duration + latency w ->
        exe_cmd w (built_cmd (loadPath (environ w) ns)) 1
        = mkExe 0 exec.Exited (Ok ([], None))
        /\ Gather w ns acc
           = mkGather (loadPath (environ w) ns) acc
                      (Panic (IndexOutOfRange 1 1)))
  /\ (forall stdout reported,
        spawn w head args = exec.Overtaken stdout None reported ->
        Gather w ns acc
        = mkGather (loadPath (environ w) ns) acc
            (if reported then Ok (Some context.DeadlineExceeded)
             else Panic (IndexOutOfRange 1 1))).
Proof.
  split; [|split].
  - intros Hlate.
    destruct (Gather_deadline_passed w ns acc head args Htokens Hlate)
      as [He HG].
    now rewrite He, HG.
  - intros duration stdout Hchild Hintime Hlate.
    assert (Ho : exec.Output (10 * Second) (spawn w head args) (latency w)
                 = exec.mkOutput (stdout duration) None true exec.Exited).
    { rewrite Hchild. unfold exec.Output.
      replace (duration <=? 10 * Second) with true
        by (symmetry; apply N.leb_le; exact Hintime).
      replace (10 * Second <=? duration + latency w) with true
        by (symmetry; apply N.leb_le; exact Hlate).
      reflexivity. }
    destruct (Gather_deadline_passed w ns acc head args Htokens) as [He HG].
    { now rewrite Ho. }
    rewrite Ho in He, HG. now rewrite He, HG.
  - intros stdout reported Hchild.
    assert (Ho : exec.Output (10 * Second) (spawn w head args) (latency w)
                 = exec.mkOutput stdout (exec.overtaken None reported) true
                                 exec.Exited).
    { now rewrite Hchild. }
    destruct (Gather_deadline_passed w ns acc head args Htokens) as [_ HG].
    { now rewrite Ho. }
    rewrite Ho in HG. rewrite HG. now destruct reported.
Qed.

Lemma late_deadline_check_witness :
  (exe_cmd (mkWorld ∅ (prints gatttool_one) (10 * Second))
           (built_cmd (loadPath ∅ unconfigured)) 1
   = mkExe 0 exec.Exited (Ok ([], None))
   /\ Gather (mkWorld ∅ (prints gatttool_one) (10 * Second)) unconfigured []
      = mkGather (loadPath ∅ unconfigured) [] (Panic (IndexOutOfRange 1 1)))
  /\ Gather (mkWorld ∅ (collected_late gatttool_one true) 0) unconfigured []
     = mkGather (loadPath ∅ unconfigured) []
                (Ok (Some context.DeadlineExceeded))
  /\ Gather (mkWorld ∅ (collected_late gatttool_one false) 0) unconfigured []
     = mkGather (loadPath ∅ unconfigured) [] (Panic (IndexOutOfRange 1 1)).
Proof.
  split; [|split].
  - exact (proj1 (proj2 (late_deadline_check_drops_output
             (mkWorld ∅ (prints gatttool_one) (10 * Second)) unconfigured []
             "GATTTOOL"
             ["-b"; "MACADDR"; "GATTFLAGS"; "--handle=VAR_HANDLE"]%string
             eq_refl))
             1000000 (fun _ => gatttool_one) eq_refl
             ltac:(vm_compute; discriminate) ltac:(vm_compute; discriminate)).
  - exact (proj2 (proj2 (late_deadline_check_drops_output
             (mkWorld ∅ (collected_late gatttool_one true) 0) unconfigured []
             "GATTTOOL"
             ["-b"; "MACADDR"; "GATTFLAGS"; "--handle=VAR_HANDLE"]%string
             eq_refl))
             gatttool_one true eq_refl).
  - exact (proj2 (proj2 (late_deadline_check_drops_output
             (mkWorld ∅ (collected_late gatttool_one false) 0) unconfigured []
             "GATTTOOL"
             ["-b"; "MACADDR"; "GATTFLAGS"; "--handle=VAR_HANDLE"]%string
             eq_refl))
             gatttool_one false eq_refl).
Defined.

(** ** The panics of a K30 cycle *)

Lemma fieldsFunc_tokens_nonempty (fuel : nat) (f : N -> bool) (s cur : bytes) :
  Forall (fun t => t <> []) (gobytes.fieldsFunc_loop fuel f s cur).
Proof.
  assert (Hflush : forall c, Forall (fun t : bytes => t <> []) (gobytes.flush c)).
  { intros [|c0 c]; cbn; [constructor|]. constructor; [discriminate|constructor]. }
  revert s cur. induction fuel as [|fuel IH]; intros s cur;
    cbn [gobytes.fieldsFunc_loop]; [apply Hflush|].
  destruct s as [|c s]; [apply Hflush|].
  destruct (if utf8.RuneSelf <=? Byte.to_N c then _ else _) as [r size].
  destruct (f r); [apply Forall_app; split; [apply Hflush|]|]; apply IH.
Qed.

(** [bytes.Fields] returns no empty field. *)
Lemma Fields_tokens_nonempty (s : bytes) :
  Forall (fun t => t <> []) (gobytes.Fields s).
Proof. rewrite Fields_FieldsFunc. apply fieldsFunc_tokens_nonempty. Qed.

Lemma DecodeString_token (t : bytes) :
  t <> [] ->
  (exists d e, hex.DecodeString (string_of_list_byte t) = (d, Some e))
  \/ (exists d0 d, hex.DecodeString (string_of_list_byte t) = (d0 :: d, None)).
Proof.
  intros Ht. destruct (valid_hex t) eqn:E.
  - right. destruct (DecodeString_valid t E) as [rest H]. eauto.
  - left. unfold hex.DecodeString. rewrite list_byte_of_string_of_list_byte.
    apply Decode_invalid. destruct t; [easy | exact E].
Qed.

Lemma gatherk30_loop_length (toks : list bytes) (x : nat) (reading out : bytes) :
  gatherk30_loop toks x reading = Ok out -> length out = length reading.
Proof.
  revert x reading. induction toks as [|t toks IH]; intros x reading.
  - cbn. now intros [= ->].
  - cbn [gatherk30_loop].
    destruct (hex.DecodeString _) as [data [e|]]; [discriminate|].
    destruct (index data 0) as [d0|q]; cbn [rbind]; [|discriminate].
    unfold store. destruct (x <? length reading)%nat; cbn [rbind];
      [|discriminate].
    intros H. apply IH in H. now rewrite length_insert in H.
Qed.

(** The loop panics with the error of the decoder or at the first index
    past the buffer, and in no other way. *)
Lemma gatherk30_loop_panics (toks : list bytes) (x : nat) (reading : bytes)
  (p : panic) :
  Forall (fun t => t <> []) toks -> (x <= length reading)%nat ->
  gatherk30_loop toks x reading = Panic p ->
  p = IndexOutOfRange (length reading) (length reading)
  \/ exists e, p = PanicError e.
Proof.
  revert x reading. induction toks as [|t toks IH]; intros x reading Hne Hx.
  - discriminate.
  - apply Forall_cons in Hne as [Ht Hne]. cbn [gatherk30_loop].
    destruct (DecodeString_token t Ht) as [(d & e & ->)|(d0 & d & ->)].
    + intros [= <-]. eauto.
    + cbn [index nth_error rbind]. unfold store.
      destruct (Nat.ltb_spec x (length reading)) as [Hlt|Hge]; cbn [rbind].
      * intros H. apply IH in H; [|exact Hne|rewrite length_insert; lia].
        now rewrite length_insert in H.
      * intros [= <-]. left. f_equal. lia.
Qed.

Lemma gatherk30_float_panics (data : bytes) (p : panic) :
  gatherk30_float data = Panic p ->
  p = IndexOutOfRange 1 1 \/ p = IndexOutOfRange 4 4
  \/ exists e, p = PanicError e.
Proof.
  unfold gatherk30_float, gobytes.Split.
  pose proof (split_loop_nonempty colonByte data 0 []) as Hne.
  destruct (gobytes.split_loop colonByte data 0 []) as [|r0 [|r1 more]];
    [easy| |].
  - cbn. intros [= <-]. now left.
  - cbn [index nth_error rbind].
    destruct (gatherk30_loop _ 0 (make 4)) as [reading|q] eqn:E; cbn [rbind].
    + apply gatherk30_loop_length in E.
      destruct reading as [|b0 [|b1 [|b2 [|b3 reading]]]]; try discriminate E.
      unfold Float32frombytes, binary.Uint32. cbn. discriminate.
    + intros [= <-].
      apply gatherk30_loop_panics in E;
        [|apply Fields_tokens_nonempty|cbn; lia].
      destruct E as [->|E]; [right; now left | right; now right].
Qed.

(** A K30 cycle can panic in the decoder only: at [result[1]] when the
    output has no colon, at [reading[4]] on a fifth token, or with the
    error of the hexadecimal decoder.  The command line it builds always
    has a first token and its wait group is never negative, so [exe_cmd]
    never panics in a cycle.  A cycle that panics has added no field. *)
Theorem K30_Gather_panics_in_decoder_only
  (w : world) (ns : K30) (acc : Accumulator) (p : panic)
  (Hpanic : ret (Gather w ns acc) = Panic p) :
  (p = IndexOutOfRange 1 1 \/ p = IndexOutOfRange 4 4
   \/ exists e, p = PanicError e)
  /\ accumulator (Gather w ns acc) = acc
  /\ exists out,
      returned (exe_cmd w (built_cmd (loadPath (environ w) ns)) 1)
      = Ok (out, None).
Proof.
  rewrite Gather_eq in Hpanic |- *. cbv zeta in *.
  pose proof (built_cmd_has_token (loadPath (environ w) ns)) as Hne.
  destruct (gostrings.Fields (built_cmd (loadPath (environ w) ns)))
    as [|head args] eqn:E; [easy|].
  rewrite (exe_cmd_token w _ head args 1 E) in *.
  change (sync.Done 1) with (Ok (A:=Z) 0%Z) in *. cbn [returned] in *.
  destruct (exec.err _) as [e|]; [discriminate|].
  cbn [ret accumulator] in *.
  destruct (gatherk30_never_error (loadPath (environ w) ns)
              (if exec.deadline_exceeded
                    (exec.Output (10 * Second) (spawn w head args) (latency w))
               then [] else
                 exec.out (exec.Output (10 * Second) (spawn w head args)
                                       (latency w))) acc)
    as [[q Hq]|(f & Hf & Hq)]; rewrite Hq in *; cbn [fst snd] in *.
  - injection Hpanic as <-. split; [|split; [reflexivity|eauto]].
    unfold gatherk30 in Hq.
    destruct (gatherk30_float _) as [f|q'] eqn:Ef; [discriminate|].
    injection Hq as <-. now apply gatherk30_float_panics in Ef.
  - discriminate.
Qed.

Lemma K30_Gather_panics_witness :
  (IndexOutOfRange 4 4 = IndexOutOfRange 1 1
   \/ IndexOutOfRange 4 4 = IndexOutOfRange 4 4
   \/ exists e, IndexOutOfRange 4 4 = PanicError e)
  /\ accumulator (Gather (mkWorld ∅ (prints (B "x: 00 00 80 3f 00")) 0)
                         unconfigured []) = []
  /\ exists out,
      returned (exe_cmd (mkWorld ∅ (prints (B "x: 00 00 80 3f 00")) 0)
                        (built_cmd (loadPath ∅ unconfigured)) 1)
      = Ok (out, None).
Proof.
  exact (K30_Gather_panics_in_decoder_only
           (mkWorld ∅ (prints (B "x: 00 00 80 3f 00")) 0) unconfigured []
           (IndexOutOfRange 4 4) eq_refl).
Defined.

(** ** A whole K30 cycle *)

(** A cycle whose command exits successfully in time and prints a frame
    with four valid tokens after its colon returns nil and adds exactly one
    point, the float of the tokens' first bytes; the collector keeps the
    parameters the cycle resolved. *)
Theorem K30_Gather_success
  (w : world) (ns : K30) (acc : Accumulator) (head : string)
  (args : list string) (duration : N) (stdout : N -> bytes)
  (prefix seg rest t0 t1 t2 t3 : bytes)
  (Htokens : gostrings.Fields (built_cmd (loadPath (environ w) ns))
             = head :: args)
  (Hchild : spawn w head args = exec.Runs duration stdout None)
  (Hintime : duration + latency w < 10 * Second)
  (Hout : stdout duration = prefix ++ colon :: seg ++ rest)
  (Hprefix : has_colon prefix = false) (Hseg : has_colon seg = false)
  (Hrest : ends_piece rest = true)
  (Hfields : gobytes.Fields seg = [t0; t1; t2; t3])
  (Hvalid : forallb valid_hex [t0; t1; t2; t3] = true) :
  Gather w ns acc
  = mkGather (loadPath (environ w) ns)
      (acc ++ [k30_point (math.Float32frombits
                            (le_value (first_byte t0) (first_byte t1)
                                      (first_byte t2) (first_byte t3)))])
      (Ok None).
Proof.
  rewrite Gather_eq. cbv zeta.
  rewrite (exe_cmd_in_time w _ head args 1 duration stdout None
             Htokens Hchild Hintime ltac:(lia)).
  cbn [returned]. rewrite Hout.
  rewrite (gatherk30_of_float _ _ acc
             (math.Float32frombits
                (le_value (first_byte t0) (first_byte t1) (first_byte t2)
                          (first_byte t3)))); [reflexivity|].
  rewrite (gatherk30_float_valid prefix seg rest _ Hprefix Hseg Hrest
             Hfields Hvalid) by (cbn; lia).
  cbn [map length Nat.sub repeat app]. apply Float32frombytes_value.
Qed.

Lemma K30_Gather_success_witness :
  Gather (mkWorld env_a (prints gatttool_one) 0) unconfigured []
  = mkGather (loadPath env_a unconfigured)
      [k30_point (math.Float32frombits
                    (le_value Byte.x00 Byte.x00 Byte.x80 Byte.x3f))]
      (Ok None).
Proof.
  exact (K30_Gather_success (mkWorld env_a (prints gatttool_one) 0)
           unconfigured [] "/opt/a/gatttool"
           ["-b"; "MACADDR"; "GATTFLAGS"; "--handle=VAR_HANDLE"]%string
           1000000 (fun _ => gatttool_one)
           (B "Characteristic value/descriptor") (B " 00 00 80 3f ") []
           (B "00") (B "00") (B "80") (B "3f")
           eq_refl eq_refl eq_refl eq_refl eq_refl eq_refl eq_refl eq_refl
           eq_refl).
Defined.

(** ** The battery cycle, file by file *)

Lemma existsb_false_elem {A : Type} (P : A -> bool) (l : list A) :
  existsb P l = false <-> forall x, x ∈ l -> P x = false.
Proof.
  induction l as [|a l IH]; cbn [existsb].
  - split; [intros _ x Hx; inversion Hx | reflexivity].
  - rewrite orb_false_iff, IH. split.
    + intros [Ha Hl] x Hx. apply elem_of_cons in Hx as [->|Hx]; auto.
    + intros H. split; [apply H; left | intros x Hx; apply H; now right].
Qed.

Section BatteryFiles.

Variable ReadFile : string -> bytes * option error.
Variable ParseFloat : string -> N -> float * option error.

Let fails := file_fails ReadFile ParseFloat.
Let error_of := file_error ReadFile ParseFloat.
Let value_of := file_value ReadFile ParseFloat.
Let line_of := file_line ReadFile ParseFloat.
Let store_of := store_file ReadFile ParseFloat.
Let loop := pine_64.Gather_loop ReadFile ParseFloat.

Lemma file_fails_error (f : string) :
  fails f = true <-> exists e, error_of f = Some e.
Proof.
  unfold fails, error_of, file_fails, file_error.
  destruct (ReadFile f) as [b [e|]]; [split; eauto|].
  destruct (is_string_stat (last_segment f)).
  - split; [discriminate | now intros [e ?]].
  - destruct (ParseFloat _ 64) as [v [e|]]; cbn [snd].
    + split; eauto.
    + split; [discriminate | now intros [e ?]].
Qed.

(** One file that does not fail: its value is stored under its last
    segment, and a number is printed. *)
Lemma Gather_loop_file (f : string) (paths : list string)
  (metrics : gmap string value) (printed : list (string * float)) :
  fails f = false ->
  loop (f :: paths) metrics printed
  = loop paths (store_of metrics f) (printed ++ line_of f).
Proof.
  unfold fails, file_fails, loop, store_of, line_of, store_file, file_line,
    file_value, file_number.
  destruct (ReadFile f) as [b [e|]] eqn:Hr; [discriminate|].
  destruct (is_string_stat (last_segment f)) eqn:Hs.
  - intros _.
    rewrite (Gather_loop_string ReadFile ParseFloat f paths _ _ b Hr Hs).
    now rewrite app_nil_r.
  - destruct (ParseFloat _ 64) as [v [e|]] eqn:Hp; [discriminate|]. intros _.
    rewrite (Gather_loop_number ReadFile ParseFloat f paths _ _ b v Hr Hs Hp).
    reflexivity.
Qed.

Lemma Gather_loop_file_error (f : string) (paths : list string)
  (metrics : gmap string value) (printed : list (string * float)) (e : error) :
  error_of f = Some e ->
  loop (f :: paths) metrics printed = (printed, Ok (inl e)).
Proof.
  unfold error_of, file_error, loop.
  destruct (ReadFile f) as [b [e'|]] eqn:Hr.
  - intros [= ->].
    apply (Gather_loop_read_error ReadFile ParseFloat f paths _ _ b e Hr).
  - destruct (is_string_stat (last_segment f)) eqn:Hs; [discriminate|].
    destruct (ParseFloat _ 64) as [v [e'|]] eqn:Hp; cbn [snd];
      [|discriminate].
    intros [= ->].
    apply (Gather_loop_parse_error ReadFile ParseFloat f paths _ _ b v e
             Hr Hs Hp).
Qed.

Lemma Gather_loop_first_failure (pre : list string) (f : string)
  (rest : list string) (metrics : gmap string value)
  (printed : list (string * float)) (e : error) :
  existsb fails pre = false -> error_of f = Some e ->
  loop (pre ++ f :: rest) metrics printed
  = (printed ++ flat_map line_of pre, Ok (inl e)).
Proof.
  revert metrics printed.
  induction pre as [|g pre IH]; intros metrics printed Hpre He.
  - cbn [app flat_map]. rewrite app_nil_r.
    now apply Gather_loop_file_error.
  - cbn [existsb] in Hpre. apply orb_false_iff in Hpre as [Hg Hpre].
    cbn [app flat_map]. rewrite (Gather_loop_file g _ _ _ Hg).
    rewrite (IH _ _ Hpre He). now rewrite app_assoc.
Qed.

Lemma Gather_loop_all (paths : list string) (metrics : gmap string value)
  (printed : list (string * float)) :
  existsb fails paths = false ->
  loop paths metrics printed
  = (printed ++ flat_map line_of paths, Ok (inr (foldl store_of metrics paths))).
Proof.
  revert metrics printed.
  induction paths as [|g paths IH]; intros metrics printed H.
  - cbn. now rewrite app_nil_r.
  - cbn [existsb] in H. apply orb_false_iff in H as [Hg H].
    cbn [flat_map foldl]. rewrite (Gather_loop_file g _ _ _ Hg).
    rewrite (IH _ _ H). now rewrite app_assoc.
Qed.

Lemma lookup_foldl_other (paths : list string) (m : gmap string value)
  (k : string) :
  k ∉ map last_segment paths -> foldl store_of m paths !! k = m !! k.
Proof.
  revert m. induction paths as [|g paths IH]; intros m H; [reflexivity|].
  cbn [map] in H. apply not_elem_of_cons in H as [Hk H].
  cbn [foldl]. rewrite (IH _ H). unfold store_of, store_file.
  now rewrite lookup_insert_ne.
Qed.

Lemma lookup_foldl_key (paths : list string) (m : gmap string value)
  (k : string) :
  is_Some (foldl store_of m paths !! k)
  <-> k ∈ map last_segment paths \/ is_Some (m !! k).
Proof.
  revert m. induction paths as [|g paths IH]; intros m.
  - cbn. split; [now right | intros [H|H]; [inversion H | exact H]].
  - cbn [foldl map]. rewrite IH. unfold store_of, store_file.
    rewrite lookup_insert_is_Some, elem_of_cons. split.
    + intros [H|[H|[_ H]]]; auto.
    + intros [[->|H]|H]; auto.
      destruct (decide (last_segment g = k)); auto.
Qed.

(** The last file with a segment is the one whose value is kept. *)
Lemma lookup_foldl_last (pre : list string) (f : string) (rest : list string)
  (m : gmap string value) :
  last_segment f ∉ map last_segment rest ->
  foldl store_of m (pre ++ f :: rest) !! last_segment f = Some (value_of f).
Proof.
  intros H. rewrite foldl_app. cbn [foldl].
  rewrite (lookup_foldl_other rest _ _ H). unfold store_of, store_file.
  apply lookup_insert_eq.
Qed.

Lemma lookup_foldl_NoDup (paths : list string) (m : gmap string value)
  (f : string) :
  NoDup (map last_segment paths) -> f ∈ paths ->
  foldl store_of m paths !! last_segment f = Some (value_of f).
Proof.
  intros Hnd Hf. apply list_elem_of_split in Hf as (pre & rest & ->).
  apply lookup_foldl_last.
  rewrite map_app in Hnd. apply NoDup_app in Hnd as (_ & _ & Hnd).
  cbn [map] in Hnd. now apply NoDup_cons in Hnd as [Hnd _].
Qed.

End BatteryFiles.

(** The battery cycle stops at the first file, in the order of the struct
    fields, whose read fails or whose number does not parse: it returns the
    error of that file and adds no field, but it has already printed the
    numbers of the files before it. *)
Theorem Batt_Gather_first_failure
  (ReadFile : string -> bytes * option error)
  (ParseFloat : string -> N -> float * option error)
  (ns : pine_64.Batt) (acc : Accumulator) (pre : list string) (f : string)
  (rest : list string) (e : error)
  (Hfields : pine_64.struct_fields ns = pre ++ f :: rest)
  (Hpre : existsb (file_fails ReadFile ParseFloat) pre = false)
  (Hfile : file_error ReadFile ParseFloat f = Some e) :
  pine_64.Gather ReadFile ParseFloat ns acc
  = pine_64.mkGather acc (flat_map (file_line ReadFile ParseFloat) pre)
                     (Ok (Some e)).
Proof.
  unfold pine_64.Gather. rewrite Hfields.
  now rewrite (Gather_loop_first_failure ReadFile ParseFloat pre f rest ∅ []
                 e Hpre Hfile).
Qed.

Lemma Batt_Gather_first_failure_witness :
  pine_64.Gather sysfs_no_capacity ParseFloat_digits default_batt []
  = pine_64.mkGather []
      (flat_map (file_line sysfs_no_capacity ParseFloat_digits)
                [pine_64.BATTSTATUS; pine_64.BATTVOLTAGE; pine_64.BATTCURRENT])
      (Ok (Some (ExternalError "no such file or directory"))).
Proof.
  exact (Batt_Gather_first_failure sysfs_no_capacity ParseFloat_digits
           default_batt []
           [pine_64.BATTSTATUS; pine_64.BATTVOLTAGE; pine_64.BATTCURRENT]
           pine_64.BATTCAPACITY [pine_64.BATTHEALTH]
           (ExternalError "no such file or directory")
           eq_refl eq_refl eq_refl).
Defined.

(** [Gather] of the battery reader resolves nothing: it neither calls
    [loadPath] nor looks at the defaults or the environment.  A collector
    without configured paths reads the path [""], and when that cannot be
    read the cycle ends with the error of that read. *)
Theorem Batt_Gather_unconfigured
  (ReadFile : string -> bytes * option error)
  (ParseFloat : string -> N -> float * option error)
  (acc : Accumulator) (b : bytes) (e : error)
  (Hempty : ReadFile "" = (b, Some e)) :
  pine_64.Gather ReadFile ParseFloat empty_batt acc
  = pine_64.mkGather acc [] (Ok (Some e)).
Proof.
  unfold pine_64.Gather, empty_batt, pine_64.struct_fields.
  cbn [pine_64.BATSTAT pine_64.BATVOLT pine_64.BATCUR pine_64.BATCAP
       pine_64.BATHEAL].
  now rewrite (Gather_loop_read_error ReadFile ParseFloat "" _ ∅ [] b e Hempty).
Qed.

Lemma Batt_Gather_unconfigured_witness :
  pine_64.Gather no_empty_path ParseFloat_digits empty_batt []
  = pine_64.mkGather []
      [] (Ok (Some (ExternalError "open : no such file or directory"))).
Proof.
  exact (Batt_Gather_unconfigured no_empty_path ParseFloat_digits [] []
           (ExternalError "open : no such file or directory") eq_refl).
Defined.

(** A battery cycle in which no file fails returns nil and adds one point.
    Its fields are keyed by the last path segments of the five files,
    whatever these are; each file whose segment no later file shares is
    stored with its value: the content as read for status and health, the
    parsed number otherwise (converted for voltage_now); and every number
    has been printed, in the order of the struct fields. *)
Theorem Batt_Gather_fields
  (ReadFile : string -> bytes * option error)
  (ParseFloat : string -> N -> float * option error)
  (ns : pine_64.Batt) (acc : Accumulator)
  (Hok : existsb (file_fails ReadFile ParseFloat) (pine_64.struct_fields ns)
         = false) :
  exists m,
    pine_64.Gather ReadFile ParseFloat ns acc
    = pine_64.mkGather (acc ++ [battery_point m])
        (flat_map (file_line ReadFile ParseFloat) (pine_64.struct_fields ns))
        (Ok None)
    /\ (forall k, is_Some (m !! k)
                  <-> k ∈ map last_segment (pine_64.struct_fields ns))
    /\ (forall pre f rest,
          pine_64.struct_fields ns = pre ++ f :: rest ->
          last_segment f ∉ map last_segment rest ->
          m !! last_segment f = Some (file_value ReadFile ParseFloat f))
    /\ (NoDup (map last_segment (pine_64.struct_fields ns)) ->
        forall f, f ∈ pine_64.struct_fields ns ->
                  m !! last_segment f = Some (file_value ReadFile ParseFloat f)).
Proof.
  exists (foldl (store_file ReadFile ParseFloat) ∅ (pine_64.struct_fields ns)).
  split; [|split; [|split]].
  - unfold pine_64.Gather.
    now rewrite (Gather_loop_all ReadFile ParseFloat _ ∅ [] Hok).
  - intros k. rewrite lookup_foldl_key, lookup_empty. split.
    + intros [H|H]; [exact H | now destruct H].
    + now left.
  - intros pre f rest -> H. now apply lookup_foldl_last.
  - intros Hnd f Hf. now apply lookup_foldl_NoDup.
Qed.

Lemma Batt_Gather_fields_witness :
  exists m,
    pine_64.Gather sysfs ParseFloat_digits default_batt []
    = pine_64.mkGather ([] ++ [battery_point m])
        (flat_map (file_line sysfs ParseFloat_digits)
                  (pine_64.struct_fields default_batt))
        (Ok None)
    /\ (forall k, is_Some (m !! k)
                  <-> k ∈ map last_segment (pine_64.struct_fields default_batt))
    /\ (forall pre f rest,
          pine_64.struct_fields default_batt = pre ++ f :: rest ->
          last_segment f ∉ map last_segment rest ->
          m !! last_segment f = Some (file_value sysfs ParseFloat_digits f))
    /\ (NoDup (map last_segment (pine_64.struct_fields default_batt)) ->
        forall f, f ∈ pine_64.struct_fields default_batt ->
                  m !! last_segment f
                  = Some (file_value sysfs ParseFloat_digits f)).
Proof.
  exact (Batt_Gather_fields sysfs ParseFloat_digits default_batt [] eq_refl).
Defined.

(** Which struct field holds which path makes no difference to the fields
    of a battery cycle: two collectors whose five paths are the same up to
    their order, with five different last segments, add the same point
    when no file fails. *)
Theorem Batt_Gather_order_of_paths
  (ReadFile : string -> bytes * option error)
  (ParseFloat : string -> N -> float * option error)
  (ns ns' : pine_64.Batt) (acc : Accumulator)
  (Hperm : pine_64.struct_fields ns' ≡ₚ pine_64.struct_fields ns)
  (Hnodup : NoDup (map last_segment (pine_64.struct_fields ns)))
  (Hok : existsb (file_fails ReadFile ParseFloat) (pine_64.struct_fields ns)
         = false) :
  pine_64.accumulator (pine_64.Gather ReadFile ParseFloat ns' acc)
  = pine_64.accumulator (pine_64.Gather ReadFile ParseFloat ns acc)
  /\ pine_64.ret (pine_64.Gather ReadFile ParseFloat ns' acc) = Ok None
  /\ pine_64.ret (pine_64.Gather ReadFile ParseFloat ns acc) = Ok None.
Proof.
  assert (Hok' : existsb (file_fails ReadFile ParseFloat)
                         (pine_64.struct_fields ns') = false).
  { apply existsb_false_elem. intros x Hx. rewrite Hperm in Hx.
    revert x Hx. now apply existsb_false_elem. }
  assert (Hnodup' : NoDup (map last_segment (pine_64.struct_fields ns'))).
  { change (map last_segment) with (fmap (M:=list) last_segment) in *.
    now rewrite Hperm. }
  unfold pine_64.Gather.
  rewrite (Gather_loop_all ReadFile ParseFloat _ ∅ [] Hok).
  rewrite (Gather_loop_all ReadFile ParseFloat _ ∅ [] Hok').
  cbn [pine_64.accumulator pine_64.ret]. split; [|split; reflexivity].
  unfold AddFields. do 3 f_equal. apply map_eq. intros k.
  destruct (decide (k ∈ map last_segment (pine_64.struct_fields ns)))
    as [Hk|Hk].
  - change (map last_segment) with (fmap (M:=list) last_segment) in Hk.
    apply list_elem_of_fmap in Hk as (f & -> & Hf).
    rewrite (lookup_foldl_NoDup ReadFile ParseFloat _ ∅ f Hnodup Hf).
    rewrite <- Hperm in Hf.
    now rewrite (lookup_foldl_NoDup ReadFile ParseFloat _ ∅ f Hnodup' Hf).
  - rewrite (lookup_foldl_other ReadFile ParseFloat _ ∅ k Hk).
    rewrite (lookup_foldl_other ReadFile ParseFloat _ ∅ k); [reflexivity|].
    change (map last_segment) with (fmap (M:=list) last_segment) in *.
    now rewrite Hperm.
Qed.

Lemma Batt_Gather_order_of_paths_witness :
  pine_64.accumulator (pine_64.Gather sysfs ParseFloat_digits swapped_batt [])
  = pine_64.accumulator (pine_64.Gather sysfs ParseFloat_digits default_batt [])
  /\ pine_64.ret (pine_64.Gather sysfs ParseFloat_digits swapped_batt [])
     = Ok None
  /\ pine_64.ret (pine_64.Gather sysfs ParseFloat_digits default_batt [])
     = Ok None.
Proof.
  apply (Batt_Gather_order_of_paths sysfs ParseFloat_digits default_batt
           swapped_batt []).
  - apply perm_swap.
  - apply (bool_decide_unpack _). vm_compute. exact I.
  - reflexivity.
Defined.

(** ** [loadPath] of the battery reader *)

Lemma Getenv_insert_ne (environ : gmap string string) (k v key : string) :
  k <> key -> os.Getenv (<[k := v]> environ) key = os.Getenv environ key.
Proof.
  intros H. unfold os.Getenv. destruct key; [reflexivity|].
  now rewrite lookup_insert_ne.
Qed.

Lemma Batt_loadPath_fields (environ : gmap string string) (ns : pine_64.Batt) :
  pine_64.loadPath environ ns
  = pine_64.mkBatt
      (if String.eqb (pine_64.BATSTAT ns) ""
       then pine_64.proc environ pine_64.BATTSTATUS "" else pine_64.BATSTAT ns)
      (if String.eqb (pine_64.BATVOLT ns) ""
       then pine_64.proc environ pine_64.BATTVOLTAGE "" else pine_64.BATVOLT ns)
      (if String.eqb (pine_64.BATCUR ns) ""
       then pine_64.proc environ pine_64.BATTCURRENT "" else pine_64.BATCUR ns)
      (if String.eqb (pine_64.BATCAP ns) ""
       then pine_64.proc environ pine_64.BATTCAPACITY "" else pine_64.BATCAP ns)
      (if String.eqb (pine_64.BATHEAL ns) ""
       then pine_64.proc environ pine_64.BATTHEALTH "" else pine_64.BATHEAL ns).
Proof.
  destruct ns as [s v c p h]. unfold pine_64.loadPath.
  cbn [pine_64.BATSTAT pine_64.BATVOLT pine_64.BATCUR pine_64.BATCAP
       pine_64.BATHEAL].
  destruct (String.eqb s "");
    cbn [pine_64.BATSTAT pine_64.BATVOLT pine_64.BATCUR pine_64.BATCAP
         pine_64.BATHEAL];
    destruct (String.eqb v "");
    cbn [pine_64.BATSTAT pine_64.BATVOLT pine_64.BATCUR pine_64.BATCAP
         pine_64.BATHEAL];
    destruct (String.eqb c "");
    cbn [pine_64.BATSTAT pine_64.BATVOLT pine_64.BATCUR pine_64.BATCAP
         pine_64.BATHEAL];
    destruct (String.eqb p "");
    cbn [pine_64.BATSTAT pine_64.BATVOLT pine_64.BATCUR pine_64.BATCAP
         pine_64.BATHEAL];
    destruct (String.eqb h ""); reflexivity.
Qed.

(** [loadPath] of the battery reader hands the default paths to [proc] as
    the names of the environment variables.  So the variables the file
    declares for the five paths are never read: setting them changes
    nothing; and unless a variable named like a default path is set, the
    paths that are not configured become the default paths. *)
Theorem Batt_loadPath_reads_default_paths_as_names
  (environ : gmap string string) (ns : pine_64.Batt) (v : string)
  (Hunset : forallb (fun p => String.eqb (os.Getenv environ p) "")
              [pine_64.BATTSTATUS; pine_64.BATTVOLTAGE; pine_64.BATTCURRENT;
               pine_64.BATTCAPACITY; pine_64.BATTHEALTH] = true) :
  pine_64.loadPath environ empty_batt = default_batt
  /\ (forall name,
        name ∈ [pine_64.BATT_STATUS; pine_64.BATT_VOLTAGE; pine_64.BATT_CURRENT;
                pine_64.BATT_CAPACITY; pine_64.BATT_HEALTH] ->
        pine_64.loadPath (<[name := v]> environ) ns
        = pine_64.loadPath environ ns).
Proof.
  split.
  - cbn [forallb] in Hunset. rewrite !andb_true_iff in Hunset.
    destruct Hunset as (H1 & H2 & H3 & H4 & H5 & _).
    rewrite Batt_loadPath_fields. unfold pine_64.proc, empty_batt.
    cbn [pine_64.BATSTAT pine_64.BATVOLT pine_64.BATCUR pine_64.BATCAP
         pine_64.BATHEAL String.eqb].
    now rewrite H1, H2, H3, H4, H5.
  - intros name Hname. rewrite !Batt_loadPath_fields. unfold pine_64.proc.
    assert (Hne : forall p,
               p ∈ [pine_64.BATTSTATUS; pine_64.BATTVOLTAGE;
                    pine_64.BATTCURRENT; pine_64.BATTCAPACITY;
                    pine_64.BATTHEALTH] -> name <> p).
    { intros p Hp ->.
      repeat (apply elem_of_cons in Hname as [Hname|Hname];
              [repeat (apply elem_of_cons in Hp as [Hp|Hp];
                       [rewrite Hp in Hname; discriminate Hname|]);
               inversion Hp|]).
      inversion Hname. }
    rewrite !Getenv_insert_ne; [reflexivity|..]; apply Hne;
      repeat (try (left; reflexivity) ; right) || (repeat constructor).
Qed.

Lemma Batt_loadPath_witness :
  pine_64.loadPath batt_env empty_batt = default_batt
  /\ (forall name,
        name ∈ [pine_64.BATT_STATUS; pine_64.BATT_VOLTAGE; pine_64.BATT_CURRENT;
                pine_64.BATT_CAPACITY; pine_64.BATT_HEALTH] ->
        pine_64.loadPath (<[name := "/tmp/x"%string]> batt_env) default_batt
        = pine_64.loadPath batt_env default_batt).
Proof.
  exact (Batt_loadPath_reads_default_paths_as_names batt_env default_batt
           "/tmp/x" eq_refl).
Defined.
